(** * Reasoning-graph viewer: log reconciliation, level calculation,
      title layout and network assembly

    A shallow embedding of [src/get_smart_title.py] and of the non-UI part
    of [src/main.py], followed by the properties of the specification that
    were checked against it.

    Conventions of the embedding:
    - a Python [str] is a [string]; a character is the code point it
      stands for, restricted to the range 0..255 that [ascii] covers;
    - a Python [int] is a [Z] where it can be negative (the two bounds of
      the formatter, sizes) and a [nat] where it is a length, an index
      into a list or a level;
    - [graph.nodes] and [graph.references] are insertion-ordered Python
      dicts and are iterated over: they are association lists in
      iteration order; the memo table [levels] is only read and written
      by key: it is a [gmap];
    - an exception that leaves a function is a value of its result type
      ([None], or a constructor naming the exception);
    - recursion that Python bounds by its call stack takes a [fuel]
      argument that counts the call depth still available. *)

From Stdlib Require Import ZArith Ascii String List Lia Wellfounded Relation_Operators.
From stdpp Require Import gmap strings list pretty.

Local Open Scope Z_scope.

(** Appending to a string literal reduces under [simpl]. *)
#[local] Arguments String.append !_ _ / : simpl nomatch.

(** ** Python string primitives *)

(** [str.isspace] on one character: the code points below 256 that Python
    treats as whitespace (TAB, LF, VT, FF, CR, FS, GS, RS, US, SPACE, NEL,
    NBSP). *)
Definition is_space (c : ascii) : bool :=
  let n := nat_of_ascii c in
  ((9 <=? n) && (n <=? 13))%nat || ((28 <=? n) && (n <=? 32))%nat
  || (n =? 133)%nat || (n =? 160)%nat.

(** [c + s'] for a character that is not whitespace, given [split s']:
    the character starts a new word when [s'] is empty or starts with
    whitespace, and extends the first word of [s'] otherwise. *)
Definition cons_char (c : ascii) (s' : string) (ws : list string) : list string :=
  match s' with
  | EmptyString => [String c EmptyString]
  | String c' _ =>
      if is_space c' then String c EmptyString :: ws
      else match ws with
           | w :: ws' => String c w :: ws'
           | [] => [String c EmptyString]
           end
  end.

(** [s.split()]: the maximal runs of non-whitespace characters, in order. *)
Fixpoint split (s : string) : list string :=
  match s with
  | EmptyString => []
  | String c s' => if is_space c then split s' else cons_char c s' (split s')
  end.

(** [sep.join(l)]. *)
Fixpoint join (sep : string) (l : list string) : string :=
  match l with
  | [] => EmptyString
  | [w] => w
  | w :: l' => String.append w (String.append sep (join sep l'))
  end.

(** [s.lstrip()], [s.rstrip()] and [s.strip()]. *)
Fixpoint lstrip (s : string) : string :=
  match s with
  | EmptyString => EmptyString
  | String c s' => if is_space c then lstrip s' else s
  end.

Fixpoint rstrip (s : string) : string :=
  match s with
  | EmptyString => EmptyString
  | String c s' =>
      match rstrip s' with
      | EmptyString => if is_space c then EmptyString else String c EmptyString
      | r => String c r
      end
  end.

Definition strip (s : string) : string := lstrip (rstrip s).

(** [s.rstrip(chars)]. *)
Fixpoint rstrip_chars (chars : list ascii) (s : string) : string :=
  match s with
  | EmptyString => EmptyString
  | String c s' =>
      match rstrip_chars chars s' with
      | EmptyString =>
          if existsb (Ascii.eqb c) chars then EmptyString else String c EmptyString
      | r => String c r
      end
  end.

(** [s.endswith(p)]. *)
Definition endswith (s p : string) : bool :=
  let n := String.length s in
  let k := String.length p in
  (k <=? n)%nat && String.eqb (String.substring (n - k) k s) p.

(** [str.lower] on one character and on a string: A-Z and the upper-case
    letters of Latin-1 (0xC0-0xDE without the multiplication sign 0xD7)
    move up by 32. *)
Definition lower_char (c : ascii) : ascii :=
  let n := nat_of_ascii c in
  if ((65 <=? n) && (n <=? 90))%nat
     || ((192 <=? n) && (n <=? 222) && negb (n =? 215))%nat
  then ascii_of_nat (n + 32) else c.

Fixpoint lower (s : string) : string :=
  match s with
  | EmptyString => EmptyString
  | String c s' => String (lower_char c) (lower s')
  end.

(** [s.split(sep)] for a one-character separator: never empty. *)
Fixpoint split_on (sep : ascii) (s : string) : list string :=
  match s with
  | EmptyString => [EmptyString]
  | String c s' =>
      if Ascii.eqb c sep then EmptyString :: split_on sep s'
      else match split_on sep s' with
           | l :: ls => String c l :: ls
           | [] => [String c EmptyString]
           end
  end.

(** ** Text layout: [src/get_smart_title.py] *)

(** [len(l)] as a Python integer. *)
Definition len {A} (l : list A) : Z := Z.of_nat (length l).

(** [range(start, stop, -1)] for non-negative bounds:
    [start, start-1, ..., stop+1]. *)
Definition range_down (start stop : nat) : list nat :=
  rev (seq (S stop) (start - stop)).

(** [range(n)]. *)
Definition py_range (n : Z) : list Z :=
  map Z.of_nat (seq 0 (Z.to_nat n)).

Definition break_punctuation : list string :=
  [","; ";"; ":"; "."; "!"; "?"].

Definition dont_break_before : list string :=
  ["the"; "a"; "an"; "of"; "in"; "on"; "at"; "to"; "for"; "and"; "or";
   "but"; "with"; "from"; "by"].

(** [any(word.endswith(p) for p in break_punctuation)]. *)
Definition ends_with_break (word : string) : bool :=
  existsb (endswith word) break_punctuation.

(** [find_natural_break(current_words, all_words, next_idx)].
    [max(0, len(current_words) - 4)] is the truncated subtraction of
    [nat]; [next_idx] is never negative where the function is called, so
    [all_words[next_idx]] counts from the front. *)
Definition find_natural_break
    (current_words all_words : list string) (next_idx : Z) : list string :=
  match current_words with
  | [] => current_words
  | _ :: _ =>
      let n := length current_words in
      match find (fun i => ends_with_break (nth i current_words ""))
                 (range_down (n - 1) (n - 4)) with
      | Some i => firstn (i + 1) current_words
      | None =>
          if next_idx <? len all_words then
            let last_word :=
              rstrip_chars ["."; ","; ";"; ":"; "!"; "?"]%char
                           (lower (List.last current_words "")) in
            let next_word := lower (nth (Z.to_nat next_idx) all_words "") in
            if existsb (String.eqb next_word) dont_break_before && (3 <? n)%nat
            then removelast current_words
            else current_words
          else current_words
      end
  end.

(** The inner [while] loop of [get_smart_title]: it appends words to the
    current line until the line is full or the words are used up. Every
    round advances [word_idx], so [len(words)] rounds are enough; [fuel]
    is given that value. *)
Fixpoint collect_words (fuel : nat) (words : list string) (target_words : Z)
    (current_line_words : list string) (word_idx : Z) : list string * Z :=
  match fuel with
  | O => (current_line_words, word_idx)
  | S fuel' =>
      if (word_idx <? len words) && (len current_line_words <? target_words)
      then collect_words fuel' words target_words
             (current_line_words ++ [nth (Z.to_nat word_idx) words ""])
             (word_idx + 1)
      else (current_line_words, word_idx)
  end.

(** One round of the [for line_num in range(max_lines)] loop, after its
    [break] test: the words of the line and the new [word_idx]. *)
Definition layout_line (words : list string) (max_words_per_line max_lines : Z)
    (line_num word_idx : Z) : list string * Z :=
  let target_words := max_words_per_line in
  let '(current_line_words, word_idx) :=
    collect_words (length words) words target_words [] word_idx in
  if (line_num <? max_lines - 1) && (word_idx <? len words) then
    let current_line_words :=
      find_natural_break current_line_words words word_idx in
    (current_line_words, word_idx - (target_words - len current_line_words))
  else (current_line_words, word_idx).

(** The [for] loop over the line numbers still to come. *)
Fixpoint layout_lines (words : list string) (max_words_per_line max_lines : Z)
    (line_nums : list Z) (lines : list string) (word_idx : Z)
    : list string * Z :=
  match line_nums with
  | [] => (lines, word_idx)
  | line_num :: rest =>
      if len words <=? word_idx then (lines, word_idx)
      else
        let '(current_line_words, word_idx) :=
          layout_line words max_words_per_line max_lines line_num word_idx in
        layout_lines words max_words_per_line max_lines rest
                     (lines ++ [join " " current_line_words]) word_idx
  end.

(** [lines[-1] = lines[-1] + s]; [None] is the [IndexError] of an empty
    list. *)
Fixpoint append_to_last (lines : list string) (s : string) : option (list string) :=
  match lines with
  | [] => None
  | [l] => Some [String.append l s]
  | l :: ls => cons l <$> append_to_last ls s
  end.

Definition newline : ascii := "010"%char.

(** [get_smart_title(node_content, max_words_per_line, max_lines)];
    [None] is the [IndexError] raised when no line was produced and words
    remain. *)
Definition get_smart_title (node_content : string)
    (max_words_per_line max_lines : Z) : option string :=
  let text := join " " (split (strip node_content)) in
  let words := split text in
  if len words <=? max_words_per_line then Some text
  else
    let '(lines, word_idx) :=
      layout_lines words max_words_per_line max_lines (py_range max_lines) [] 0 in
    lines ← (if word_idx <? len words then append_to_last lines "..."
             else Some lines);
    Some (join (String newline "") lines).

(** ** Data model *)

(** A Python dict with string keys, in insertion order. The keys of a
    dict are pairwise distinct; [dict_get] returns the first binding. *)
Fixpoint dict_get {V} (d : list (string * V)) (k : string) : option V :=
  match d with
  | [] => None
  | (k', v) :: d' => if String.eqb k' k then Some v else dict_get d' k
  end.

(** [k in d]. *)
Definition dict_mem {V} (d : list (string * V)) (k : string) : bool :=
  match dict_get d k with Some _ => true | None => false end.

(** [d.keys()] in iteration order. *)
Definition dict_keys {V} (d : list (string * V)) : list string := map fst d.

(** Modelled from the spec: [data_models.py], which declares [Graph],
    [Node] and [Reference], is not part of the sources at hand. The
    records follow section 3 of the specification and the fields that
    [main.py] reads. *)
Module SourceCitation.
Record t := mk { title : string; authors : list string }.
End SourceCitation.

Module Reference.
Record t := mk {
  statement : string;
  source_citation : SourceCitation.t;
  context : option string
}.
End Reference.

Module Node.
Record t := mk {
  id : string;
  conclusion : string;
  justification : string;
  premises : list string;
  references : list string;
  is_refutation : bool
}.
End Node.

Module Graph.
Record t := mk {
  nodes : list (string * Node.t);
  references : list (string * Reference.t)
}.
End Graph.

(** ** Event-log reconciliation: [load_graph_from_jsonl] *)

(** What [json.loads] returns. Only zero against non-zero is observed of
    a number. *)
#[warnings="-register-all"]
Inductive json :=
| JNull
| JBool (b : bool)
| JNum (n : Z)
| JStr (s : string)
| JArr (l : list json)
| JObj (members : list (string * json)).

(** The exceptions that can reach the [except] clause. *)
Inductive exn :=
| JSONDecodeError | KeyError | TypeError | AttributeError | OtherError.

(** [except (json.JSONDecodeError, KeyError, TypeError)]. *)
Definition caught (e : exn) : bool :=
  match e with
  | JSONDecodeError | KeyError | TypeError => true
  | AttributeError | OtherError => false
  end.

(** Truth value of a decoded JSON value ([if graph_data:]). *)
Definition truthy (v : json) : bool :=
  match v with
  | JNull => false
  | JBool b => b
  | JNum n => negb (n =? 0)
  | JStr s => negb (String.eqb s "")
  | JArr l => match l with [] => false | _ => true end
  | JObj m => match m with [] => false | _ => true end
  end.

(** [v == s] for a string literal [s]. *)
Definition is_str (v : json) (s : string) : bool :=
  match v with JStr s' => String.eqb s' s | _ => false end.

(** What the loop does after a line went through the [try] block without
    an exception. *)
Inductive flow := Next | Break.

Section Reconciler.
(** [json.loads]: the decoded value, or [None] for [JSONDecodeError]. *)
Variable json_loads : string -> option json.
(** [Graph( **graph_data)] on the members of a JSON object: the graph,
    or the exception the constructor raises. *)
Variable Graph_init : list (string * json) -> exn + Graph.t.

(** [data.get("graph", {})], then [if graph_data: graph = Graph( **graph_data)].
    [.get] on a value that is no dict raises [AttributeError]; [**] on
    a value that is no mapping raises [TypeError]. [None] stands for
    a falsy [graph_data]. *)
Definition graph_of_data (data : json) : exn + option Graph.t :=
  match data with
  | JObj d =>
      let graph_data := default (JObj []) (dict_get d "graph") in
      if truthy graph_data then
        match graph_data with
        | JObj gd =>
            match Graph_init gd with
            | inl e => inl e
            | inr g => inr (Some g)
            end
        | _ => inl TypeError
        end
      else inr None
  | _ => inl AttributeError
  end.

(** The body of the [try] block on one line that is not blank: the
    exception raised, or the value of [graph] and whether the loop
    goes on. *)
Definition try_line (graph : option Graph.t) (line : string)
    : exn + (option Graph.t * flow) :=
  match json_loads line with
  | None => inl JSONDecodeError
  | Some (JObj ev) =>
      let event_type := default JNull (dict_get ev "event") in
      let data := default (JObj []) (dict_get ev "data") in
      if is_str event_type "SystemFinishEvent" then
        match graph_of_data data with
        | inl e => inl e
        | inr (Some g) => inr (Some g, Break)
        | inr None => inr (graph, Next)
        end
      else if is_str event_type "GraphMergeEvent" then
        match graph_of_data data with
        | inl e => inl e
        | inr (Some g) => inr (Some g, Next)
        | inr None => inr (graph, Next)
        end
      else inr (graph, Next)
  | Some _ => inl AttributeError
  end.

(** The [for line in f] loop. The state is [graph] and the warnings
    shown so far; an exception that the [except] clause does not name
    leaves the function. *)
Fixpoint scan_lines (lines : list string) (graph : option Graph.t)
    (warnings : list exn) : exn + (option Graph.t * list exn) :=
  match lines with
  | [] => inr (graph, warnings)
  | line :: rest =>
      if String.eqb (strip line) "" then scan_lines rest graph warnings
      else
        match try_line graph line with
        | inr (graph', Break) => inr (graph', warnings)
        | inr (graph', Next) => scan_lines rest graph' warnings
        | inl e =>
            if caught e then scan_lines rest graph (warnings ++ [e])
            else inl e
        end
  end.

(** [load_graph_from_jsonl] on the lines of the file. *)
Definition load_graph_from_jsonl (lines : list string)
    : exn + (option Graph.t * list exn) :=
  scan_lines lines None [].

(** The line is not blank and decodes to an event of kind [tag] whose
    data carries the non-empty graph object [gd], from which the
    constructor builds [g]. *)
Definition event_with_graph (tag line : string) (g : Graph.t) : Prop :=
  strip line <> "" /\
  exists ev d gd,
    json_loads line = Some (JObj ev) /\
    dict_get ev "event" = Some (JStr tag) /\
    dict_get ev "data" = Some (JObj d) /\
    dict_get d "graph" = Some (JObj gd) /\
    gd <> [] /\
    Graph_init gd = inr g.

(** A record that the scan goes past: blank, or skipped with a
    warning, or an event that is no full snapshot with a graph. It
    neither ends the scan nor aborts it. *)
Definition passes (line : string) : bool :=
  String.eqb (strip line) "" ||
  match try_line None line with
  | inr (_, Next) => true
  | inr (_, Break) => false
  | inl e => caught e
  end.

(** A record that the scan goes past and that leaves [graph] as it
    was: as above, and no incremental merge with a graph either. *)
Definition keeps (line : string) : bool :=
  String.eqb (strip line) "" ||
  match try_line None line with
  | inr (None, Next) => true
  | inr (_, _) => false
  | inl e => caught e
  end.

End Reconciler.

(** ** Level calculation: [calculate_node_levels] *)

(** [[get_level(pid) for pid in premises if pid in graph.nodes]], with
    [get_level] given as [rec]; the memo table is threaded through the
    calls from left to right. *)
Fixpoint parent_levels_of
    (rec : gmap string nat -> string -> option (gmap string nat * nat))
    (graph : Graph.t) (levels : gmap string nat) (pids : list string)
    : option (gmap string nat * list nat) :=
  match pids with
  | [] => Some (levels, [])
  | pid :: rest =>
      if dict_mem (Graph.nodes graph) pid then
        match rec levels pid with
        | None => None
        | Some (levels1, l) =>
            match parent_levels_of rec graph levels1 rest with
            | None => None
            | Some (levels2, ls) => Some (levels2, l :: ls)
            end
        end
      else parent_levels_of rec graph levels rest
  end.

(** The nested function [get_level]. [levels] is the dict it closes over:
    it comes in as an argument and goes out with the result. [None] is a
    call chain deeper than [fuel]. *)
Fixpoint get_level (fuel : nat) (graph : Graph.t) (levels : gmap string nat)
    (node_id : string) : option (gmap string nat * nat) :=
  match fuel with
  | O => None
  | S fuel' =>
      match levels !! node_id with
      | Some l => Some (levels, l)
      | None =>
          match dict_get (Graph.nodes graph) node_id with
          | None => Some (levels, 0%nat)
          | Some node =>
              match Node.premises node with
              | [] => Some (<[node_id := 0%nat]> levels, 0%nat)
              | _ :: _ =>
                  match parent_levels_of (get_level fuel' graph) graph levels
                                         (Node.premises node) with
                  | None => None
                  | Some (levels', parent_levels) =>
                      let level :=
                        match parent_levels with
                        | [] => 0%nat
                        | _ :: _ => (max_list parent_levels + 1)%nat
                        end in
                      Some (<[node_id := level]> levels', level)
                  end
              end
          end
      end
  end.

(** [for node_id in graph.nodes: get_level(node_id)]. *)
Fixpoint level_loop (fuel : nat) (graph : Graph.t) (node_ids : list string)
    (levels : gmap string nat) : option (gmap string nat) :=
  match node_ids with
  | [] => Some levels
  | node_id :: rest =>
      match get_level fuel graph levels node_id with
      | None => None
      | Some (levels', _) => level_loop fuel graph rest levels'
      end
  end.

Definition calculate_node_levels (fuel : nat) (graph : Graph.t)
    : option (gmap string nat) :=
  level_loop fuel graph (dict_keys (Graph.nodes graph)) ∅.

(** ** Network assembly: [create_pyvis_network] *)

(** What [pyvis.network.Network] keeps of the calls made here: the node
    descriptors and the directed edges, in the order they were added.
    The physics, layout and font options are settings of the renderer
    and are left out. *)
Module Net.
Record node := mk_node {
  n_id : string;
  label : string;
  title : string;
  color : string;
  size : Z;
  border : string;
  level : nat
}.

Record t := mk { nodes : list node; edges : list (string * string) }.

Definition empty : t := mk [] [].

Definition has_node (net : t) (n : string) : bool :=
  existsb (fun d => String.eqb (n_id d) n) (nodes net).

(** [net.add_node]: an identifier that is already there is not added a
    second time. *)
Definition add_node (net : t) (d : node) : t :=
  if has_node net (n_id d) then net
  else mk (nodes net ++ [d]) (edges net).

(** [net.add_edge] of a directed network: it asserts that both ends
    were added as nodes and appends the edge; [None] is the
    [AssertionError]. *)
Definition add_edge (net : t) (source to : string) : option t :=
  if has_node net source && has_node net to
  then Some (mk (nodes net) (edges net ++ [(source, to)]))
  else None.
End Net.

Definition nl : string := String newline "".

Definition normal_color : string := "#ADD8E6".
Definition refutation_color : string := "#F08080".
Definition root_color : string := "#90EE90".

(** [{node_id for node_id, node in graph.nodes.items() if not node.premises}]. *)
Definition root_nodes_of (graph : Graph.t) : gset string :=
  list_to_set
    (map fst
       (List.filter (fun kv => match Node.premises (snd kv) with
                               | [] => true
                               | _ :: _ => false
                               end)
                    (Graph.nodes graph))).

(** The colour and the border colour of a node. *)
Definition node_colors (root_nodes : gset string) (node_id : string)
    (node : Node.t) : string * string :=
  if Node.is_refutation node then (refutation_color, "#DC143C")
  else if bool_decide (node_id ∈ root_nodes) then (root_color, "#228B22")
  else (normal_color, "#4682B4").

(** The [for ref_id in node.references] loop that extends the tooltip. *)
Fixpoint add_reference_details (references : list (string * Reference.t))
    (ref_ids : list string) (tooltip : string) : option string :=
  match ref_ids with
  | [] => Some tooltip
  | ref_id :: rest =>
      match dict_get references ref_id with
      | Some ref =>
          let tooltip :=
            tooltip +:+ nl +:+ nl +:+ "[" +:+ String.substring 0 8 ref_id +:+ "] " in
          let citation := Reference.source_citation ref in
          let tooltip := tooltip +:+ SourceCitation.title citation in
          let authors := SourceCitation.authors citation in
          let tooltip :=
            if 2 <=? len authors then
              tooltip +:+ " (by " +:+ join ", " (removelast authors) +:+ " et al.)"
            else if len authors =? 1 then
              tooltip +:+ " (by " +:+ nth 0 authors "" +:+ ")"
            else tooltip in
          statement ← get_smart_title (Reference.statement ref) 10 1;
          add_reference_details references rest (tooltip +:+ nl +:+ statement)
      | None => add_reference_details references rest tooltip
      end
  end.

(** The descriptor that one round of the node loop hands to [add_node]. *)
Definition describe_node (graph : Graph.t) (node_levels : gmap string nat)
    (root_nodes : gset string) (node_size : Z) (node_id : string)
    (node : Node.t) : option Net.node :=
  let '(color, border_color) := node_colors root_nodes node_id node in
  conclusion ← get_smart_title (Node.conclusion node) 8 2;
  let label := Node.id node +:+ nl +:+ conclusion in
  long_conclusion ← get_smart_title (Node.conclusion node) 12 8;
  long_justification ← get_smart_title (Node.justification node) 12 8;
  let tooltip :=
    "ID: " +:+ Node.id node +:+ nl +:+ nl +:+ "Conclusion: " +:+ long_conclusion
    +:+ nl +:+ nl +:+ "Justification: " +:+ long_justification in
  tooltip ←
    match Node.references node with
    | [] => Some tooltip
    | _ :: _ =>
        add_reference_details (Graph.references graph) (Node.references node)
          (tooltip +:+ nl +:+ nl +:+ "--- References ("
           +:+ pretty (length (Node.references node)) +:+ ") ---")
    end;
  let tooltip :=
    if Node.is_refutation node then tooltip +:+ nl +:+ nl +:+ "[REFUTATION]"
    else tooltip in
  let size := node_size + len (Node.references node) * 100 in
  let level := default 0%nat (node_levels !! node_id) in
  Some (Net.mk_node node_id label tooltip color size border_color level).

(** [for node_id, node in graph.nodes.items(): ... net.add_node(...)]. *)
Fixpoint add_nodes (graph : Graph.t) (node_levels : gmap string nat)
    (root_nodes : gset string) (node_size : Z)
    (items : list (string * Node.t)) (net : Net.t) : option Net.t :=
  match items with
  | [] => Some net
  | (node_id, node) :: rest =>
      d ← describe_node graph node_levels root_nodes node_size node_id node;
      add_nodes graph node_levels root_nodes node_size rest (Net.add_node net d)
  end.

(** [for premise_id in node.premises: if premise_id in graph.nodes:
    net.add_edge(premise_id, node_id)]. *)
Fixpoint add_premise_edges (graph : Graph.t) (node_id : string)
    (premise_ids : list string) (net : Net.t) : option Net.t :=
  match premise_ids with
  | [] => Some net
  | premise_id :: rest =>
      if dict_mem (Graph.nodes graph) premise_id then
        net' ← Net.add_edge net premise_id node_id;
        add_premise_edges graph node_id rest net'
      else add_premise_edges graph node_id rest net
  end.

(** [for node_id, node in graph.nodes.items(): ...] around it. *)
Fixpoint add_edges (graph : Graph.t) (items : list (string * Node.t))
    (net : Net.t) : option Net.t :=
  match items with
  | [] => Some net
  | (node_id, node) :: rest =>
      net' ← add_premise_edges graph node_id (Node.premises node) net;
      add_edges graph rest net'
  end.

(** The assembly proper: what [create_pyvis_network] does once it has
    [node_levels]. *)
Definition assemble_network (graph : Graph.t) (node_levels : gmap string nat)
    (node_size : Z) : option Net.t :=
  let root_nodes := root_nodes_of graph in
  net ← add_nodes graph node_levels root_nodes node_size
                  (Graph.nodes graph) Net.empty;
  add_edges graph (Graph.nodes graph) net.

(** [create_pyvis_network(graph, node_size=node_size)]. *)
Definition create_pyvis_network (fuel : nat) (graph : Graph.t) (node_size : Z)
    : option Net.t :=
  node_levels ← calculate_node_levels fuel graph;
  assemble_network graph node_levels node_size.

(** ** The statistics of [main] *)

(** [len(graph.nodes)], the Nodes metric. *)
Definition node_count (graph : Graph.t) : Z := len (Graph.nodes graph).

(** [sum(1 for node in graph.nodes.values() if not node.premises)], the
    Root Nodes metric. *)
Definition root_node_count (graph : Graph.t) : Z :=
  foldr Z.add 0
    (map (fun _ : Node.t => 1)
         (List.filter (fun node => match Node.premises node with
                                   | [] => true
                                   | _ :: _ => false
                                   end)
                      (map snd (Graph.nodes graph)))).

(** * Notions used in the statements *)

Fixpoint no_space (s : string) : bool :=
  match s with
  | EmptyString => true
  | String c s' => negb (is_space c) && no_space s'
  end.

(** A word as [split] produces it: not empty, no whitespace inside. *)
Definition is_word (w : string) : bool :=
  match w with
  | EmptyString => false
  | String _ _ => no_space w
  end.

(** A string that [split] can cut off from what comes before it: empty,
    or starting with whitespace. *)
Definition sep_start (t : string) : bool :=
  match t with
  | EmptyString => true
  | String c _ => is_space c
  end.

Fixpoint no_newline (s : string) : bool :=
  match s with
  | EmptyString => true
  | String c s' => negb (Ascii.eqb c newline) && no_newline s'
  end.

(** The text after whitespace normalisation, the local [text] of
    [get_smart_title]. *)
Definition normalize (node_content : string) : string :=
  join " " (split (strip node_content)).

(** What the outer loop maintains: the lines so far, as lists of words,
    are non-empty, within the bound, and hold the first [word_idx] words
    in order. *)
Definition laid_out (words : list string) (mwpl : Z)
    (wls : list (list string)) (word_idx : Z) : Prop :=
  0 <= word_idx <= len words /\
  concat wls = firstn (Z.to_nat word_idx) words /\
  Forall (fun wl => wl <> [] /\ len wl <= mwpl) wls.

(** Which positions [i] of a line of [n] words a rule about the
    punctuation break looks at. *)
Definition last_four (n i : nat) : bool := (n - 4 <=? i)%nat.

Definition last_three_but_first (n i : nat) : bool :=
  (1 <=? i)%nat && (n - 3 <=? i)%nat.

(** The rule of the punctuation break for a window of positions: when a
    line that is not the last permitted one closes with words left over,
    and position [i] of the line as filled is the rightmost one whose
    word ends with a punctuation mark, and [i] is in the window, the
    line is cut after that word and the next line starts with the word
    that followed it. *)
Definition natural_break_rule (window : nat -> nat -> bool) : Prop :=
  forall (words : list string) (max_words_per_line max_lines line_num word_idx : Z)
         (filled : list string) (word_idx' : Z) (i : nat),
    0 <= word_idx <= len words ->
    collect_words (length words) words max_words_per_line [] word_idx
      = (filled, word_idx') ->
    line_num < max_lines - 1 -> word_idx' < len words ->
    (i < length filled)%nat -> window (length filled) i = true ->
    ends_with_break (nth i filled "") = true ->
    (forall j, (i < j < length filled)%nat ->
               ends_with_break (nth j filled "") = false) ->
    layout_line words max_words_per_line max_lines line_num word_idx
      = (firstn (i + 1) filled, word_idx + Z.of_nat (i + 1)).

(** The premises of a node that are nodes of the graph, in order. *)
Definition existing_premises (graph : Graph.t) (node : Node.t) : list string :=
  List.filter (dict_mem (Graph.nodes graph)) (Node.premises node).

(** [p] is a premise of the node [n] of the graph, and a node itself. *)
Definition premise_of (graph : Graph.t) (p n : string) : Prop :=
  exists node, dict_get (Graph.nodes graph) n = Some node /\
               In p (existing_premises graph node).

(** The premise relation is acyclic: there is no infinite chain of
    premises, which for a finite graph is to say no cycle. *)
Definition acyclic (graph : Graph.t) : Prop := well_founded (premise_of graph).

(** The level of a node as section 4.2 of the specification defines it,
    with no reference to fuel or to the memo table. *)
#[warnings="-register-all"]
Inductive level_of (graph : Graph.t) : string -> nat -> Prop :=
| level_of_root n node :
    dict_get (Graph.nodes graph) n = Some node ->
    existing_premises graph node = [] ->
    level_of graph n 0
| level_of_step n node ls :
    dict_get (Graph.nodes graph) n = Some node ->
    existing_premises graph node <> [] ->
    Forall2 (level_of graph) (existing_premises graph node) ls ->
    level_of graph n (max_list ls + 1).

(** The memo table holds levels only. *)
Definition memo_ok (graph : Graph.t) (levels : gmap string nat) : Prop :=
  forall k l, levels !! k = Some l -> level_of graph k l.

(** Nothing is taken out of the memo table. *)
Definition memo_le (levels levels' : gmap string nat) : Prop :=
  forall k l, levels !! k = Some l -> levels' !! k = Some l.

(** What a call that returns has done, for [get_level] at some fuel or
    for any function in its place. *)
Definition sound_rec (graph : Graph.t)
    (rec : gmap string nat -> string -> option (gmap string nat * nat)) : Prop :=
  forall levels n levels' l,
    rec levels n = Some (levels', l) -> memo_ok graph levels ->
    memo_ok graph levels' /\ memo_le levels levels' /\
    (dict_mem (Graph.nodes graph) n = true ->
     levels' !! n = Some l /\ level_of graph n l).

(** The level that the contract of section 4.2 gives a node, from the
    levels of the others. *)
Definition level_by_contract (graph : Graph.t) (level : string -> nat)
    (node : Node.t) : nat :=
  match existing_premises graph node with
  | [] => 0%nat
  | (_ :: _) as ps => (1 + max_list (map level ps))%nat
  end.

(** The visual category of a node as section 4.4 of the specification
    words it, and the colours that stand for it. *)
Inductive category := Root | Refutation | Normal.

Definition category_by_contract (node : Node.t) : category :=
  if Node.is_refutation node then Refutation
  else match Node.premises node with
       | [] => Root
       | _ :: _ => Normal
       end.

Definition category_colors (c : category) : string * string :=
  match c with
  | Refutation => (refutation_color, "#DC143C")
  | Root => (root_color, "#228B22")
  | Normal => (normal_color, "#4682B4")
  end.

(** The edges that the premises of one node give. *)
Definition premise_edges (graph : Graph.t) (item : string * Node.t)
    : list (string * string) :=
  map (fun p => (p, fst item)) (existing_premises graph (snd item)).

(** The graphs of the examples in section 8 of the specification. *)
Definition plain_node (i : string) (ps : list string) : string * Node.t :=
  (i, Node.mk i "conclusion" "justification" ps [] false).

Definition chain_graph : Graph.t :=
  Graph.mk [plain_node "A" []; plain_node "B" ["A"]; plain_node "C" ["B"]] [].

Definition ghost_graph : Graph.t :=
  Graph.mk [plain_node "D" ["ghost"]] [].

Definition cyclic_graph : Graph.t :=
  Graph.mk [plain_node "X" ["Y"]; plain_node "Y" ["X"]] [].

(** A log for the examples. A line is named by what it stands for,
    [demo_loads] maps it to the value [json.loads] gives for it, and
    [demo_init] builds a graph from the keys of the [nodes] object and
    the [premises] of each. *)
Definition demo_node_json (i : string) (ps : list string) : string * json :=
  (i, JObj [("id", JStr i); ("premises", JArr (map JStr ps))]).

Definition demo_event (tag : string) (ns : list (string * json)) : json :=
  JObj [("event", JStr tag);
        ("data", JObj [("graph", JObj [("nodes", JObj ns); ("references", JObj [])])])].

Definition demo_table : list (string * json) :=
  [("merge n1", demo_event "GraphMergeEvent" [demo_node_json "n1" []]);
   ("merge n1 n2",
    demo_event "GraphMergeEvent" [demo_node_json "n1" []; demo_node_json "n2" ["n1"]]);
   ("finish n1 n2",
    demo_event "SystemFinishEvent" [demo_node_json "n1" []; demo_node_json "n2" ["n1"]]);
   ("finish without graph", JObj [("event", JStr "SystemFinishEvent")]);
   ("progress", JObj [("event", JStr "ProgressEvent"); ("data", JNum 7)]);
   ("merge with a list", JObj [("event", JStr "GraphMergeEvent");
                               ("data", JObj [("graph", JArr [JNum 1])])]);
   ("a list", JArr [])].

Definition demo_loads (line : string) : option json := dict_get demo_table line.

Definition demo_premises (v : json) : list string :=
  match v with
  | JObj m =>
      match dict_get m "premises" with
      | Some (JArr ps) =>
          flat_map (fun p => match p with JStr s => [s] | _ => [] end) ps
      | _ => []
      end
  | _ => []
  end.

Definition demo_init (gd : list (string * json)) : exn + Graph.t :=
  match dict_get gd "nodes" with
  | Some (JObj ns) =>
      inr (Graph.mk (map (fun kv => plain_node (fst kv) (demo_premises (snd kv))) ns) [])
  | _ => inl OtherError
  end.

Definition graph_n1 : Graph.t := Graph.mk [plain_node "n1" []] [].

Definition graph_n1_n2 : Graph.t :=
  Graph.mk [plain_node "n1" []; plain_node "n2" ["n1"]] [].

Definition demo_graph : Graph.t :=
  Graph.mk
    [ ("n1", Node.mk "n1" "A root" "given" [] [] false);
      ("n2", Node.mk "n2" "A step" "from n1" ["n1"; "missing"] [] false);
      ("n3", Node.mk "n3" "A refuted root" "contradiction" [] [] true);
      ("n4", Node.mk "n4" "A refuted step" "contradiction" ["n2"] [] true) ]
    [].

(** More lines for the examples: events whose graph object the
    constructor of the examples rejects, and events with a payload of the
    wrong shape. *)
Definition demo_table_bad : list (string * json) :=
  [("finish with a graph without nodes",
    JObj [("event", JStr "SystemFinishEvent");
          ("data", JObj [("graph", JObj [("references", JObj [])])])]);
   ("merge with data 5",
    JObj [("event", JStr "GraphMergeEvent"); ("data", JNum 5)]);
   ("a number", JNum 42)].

Definition demo_loads_bad (line : string) : option json :=
  dict_get (demo_table_bad ++ demo_table) line.

(** A constructor for the examples that rejects a graph object without
    [nodes] with [TypeError], as a constructor with a required keyword
    argument does. *)
Definition demo_init_strict (gd : list (string * json)) : exn + Graph.t :=
  match dict_get gd "nodes" with
  | Some (JObj ns) =>
      inr (Graph.mk (map (fun kv => plain_node (fst kv) (demo_premises (snd kv))) ns) [])
  | _ => inl TypeError
  end.

(** ** Records by their decoded shape *)

Section RecordShapes.
Variable json_loads : string -> option json.
Variable Graph_init : list (string * json) -> exn + Graph.t.






End RecordShapes.

(** * Properties *)

(** ** Words, separators and lines *)

Lemma app_assoc_s (a b c : string) : (a +:+ b) +:+ c = a +:+ (b +:+ c).
Proof. induction a as [|x a IH]; simpl; [done | by f_equal]. Qed.

Lemma app_empty_r (a : string) : a +:+ "" = a.
Proof. induction a as [|x a IH]; simpl; [done | by f_equal]. Qed.

Lemma split_cons (c : ascii) (s : string) :
  split (String c s) = if is_space c then split s else cons_char c s (split s).
Proof. reflexivity. Qed.

#[local] Arguments split : simpl never.

Lemma split_all_words (s : string) : Forall (fun w => is_word w = true) (split s).
Proof.
  induction s as [|c s IH]; [constructor |].
  rewrite split_cons. destruct (is_space c) eqn:Hc; [done |].
  assert (Hone : is_word (String c "") = true) by (simpl; by rewrite Hc).
  unfold cons_char. destruct s as [|c' s']; [by repeat constructor |].
  destruct (is_space c'); [by constructor |].
  destruct (split (String c' s')) as [|w ws]; [by repeat constructor |].
  inversion IH as [|? ? Hw Hws]; subst. constructor; [| done].
  simpl. rewrite Hc. simpl. destruct w; [done | exact Hw].
Qed.

Lemma split_word_app (w t : string) :
  is_word w = true -> sep_start t = true -> split (w +:+ t) = w :: split t.
Proof.
  induction w as [|c w IH]; [done |]. intros Hw Ht. simpl in Hw.
  apply andb_true_iff in Hw as [Hc Hw]. apply negb_true_iff in Hc.
  simpl. rewrite split_cons, Hc. destruct w as [|c2 w2].
  - simpl. destruct t as [|c' t']; [done |]. simpl in Ht. simpl. by rewrite Ht.
  - assert (Hw2 : is_word (String c2 w2) = true) by exact Hw.
    rewrite (IH Hw2 Ht). simpl.
    simpl in Hw. apply andb_true_iff in Hw as [Hc2 _]. apply negb_true_iff in Hc2.
    by rewrite Hc2.
Qed.

Lemma split_join_app (ws : list string) (t : string) :
  Forall (fun w => is_word w = true) ws -> sep_start t = true ->
  split (join " " ws +:+ t) = ws ++ split t.
Proof.
  induction ws as [|w ws IH]; intros Hws Ht; [done |].
  inversion Hws as [|? ? Hw Hws']; subst.
  destruct ws as [|w2 ws].
  - simpl. by apply split_word_app.
  - change (join " " (w :: w2 :: ws)) with (w +:+ (" " +:+ join " " (w2 :: ws))).
    rewrite app_assoc_s. rewrite split_word_app; [| done | done].
    change ((" " +:+ join " " (w2 :: ws)) +:+ t)
      with (String " "%char (join " " (w2 :: ws) +:+ t)).
    rewrite split_cons. change (is_space " ") with true. cbv iota.
    by rewrite IH.
Qed.

Lemma split_join (ws : list string) :
  Forall (fun w => is_word w = true) ws -> split (join " " ws) = ws.
Proof.
  intros Hws. rewrite <- (app_empty_r (join " " ws)).
  rewrite split_join_app; [| done | done]. apply app_nil_r.
Qed.

Lemma split_lstrip (s : string) : split (lstrip s) = split s.
Proof.
  induction s as [|c s IH]; [done |]. simpl. rewrite split_cons.
  destruct (is_space c) eqn:Hc; [done |]. by rewrite split_cons, Hc.
Qed.

Lemma rstrip_head (s : string) (c : ascii) (r : string) :
  rstrip s = String c r -> exists t, s = String c t.
Proof.
  destruct s as [|c0 s]; simpl; [done |].
  destruct (rstrip s); [destruct (is_space c0) |]; intros [= <- _]; eauto.
Qed.

Lemma split_rstrip (s : string) : split (rstrip s) = split s.
Proof.
  induction s as [|c s IH]; [done |]. simpl.
  destruct (rstrip s) as [|c2 r] eqn:Hr.
  - rewrite (split_cons c s). change (split "") with (@nil string) in IH.
    rewrite <- IH.
    destruct (is_space c) eqn:Hc; [done |]. rewrite split_cons, Hc.
    destruct s as [|c' s']; [done |]. simpl. by destruct (is_space c').
  - destruct (rstrip_head _ _ _ Hr) as [t ->].
    rewrite !(split_cons c). by rewrite IH.
Qed.

Lemma split_strip (s : string) : split (strip s) = split s.
Proof. unfold strip. by rewrite split_lstrip, split_rstrip. Qed.

Lemma no_space_no_newline (s : string) : no_space s = true -> no_newline s = true.
Proof.
  induction s as [|c s IH]; [done |]. simpl. intros [Hc Hs]%andb_true_iff.
  rewrite (IH Hs), andb_true_r. destruct (Ascii.eqb c newline) eqn:E; [| done].
  apply Ascii.eqb_eq in E. subst c. done.
Qed.

Lemma is_word_no_space (w : string) : is_word w = true -> no_space w = true.
Proof. by destruct w. Qed.

Lemma no_newline_app (a b : string) :
  no_newline (a +:+ b) = no_newline a && no_newline b.
Proof.
  induction a as [|c a IH]; [done |]. simpl. rewrite IH. by rewrite andb_assoc.
Qed.

Lemma no_newline_join (ws : list string) :
  Forall (fun w => is_word w = true) ws -> no_newline (join " " ws) = true.
Proof.
  induction ws as [|w ws IH]; [done |]. intros Hws.
  inversion Hws as [|? ? Hw Hws']; subst.
  assert (no_newline w = true)
    by (by apply no_space_no_newline, is_word_no_space).
  destruct ws as [|w2 ws]; [done |].
  change (join " " (w :: w2 :: ws)) with (w +:+ (" " +:+ join " " (w2 :: ws))).
  rewrite !no_newline_app, (IH Hws'). by rewrite H.
Qed.

Lemma split_on_no_newline (s : string) :
  no_newline s = true -> split_on newline s = [s].
Proof.
  induction s as [|c s IH]; [done |]. simpl. intros [Hc Hs]%andb_true_iff.
  apply negb_true_iff in Hc. by rewrite Hc, (IH Hs).
Qed.

Lemma split_on_app (a b : string) :
  no_newline a = true ->
  split_on newline (a +:+ String newline b) = a :: split_on newline b.
Proof.
  induction a as [|c a IH]; [done |]. simpl. intros [Hc Ha]%andb_true_iff.
  apply negb_true_iff in Hc. by rewrite Hc, (IH Ha).
Qed.

Lemma split_on_join (lines : list string) :
  lines <> [] -> Forall (fun l => no_newline l = true) lines ->
  split_on newline (join nl lines) = lines.
Proof.
  induction lines as [|l lines IH]; [done |]. intros _ Hl.
  inversion Hl as [|? ? Hl1 Hl2]; subst.
  destruct lines as [|l2 lines]; [by apply split_on_no_newline |].
  change (join nl (l :: l2 :: lines))
    with (l +:+ String newline (join nl (l2 :: lines))).
  rewrite split_on_app; [| done]. by rewrite IH.
Qed.

(** The words of a text made of lines joined by line breaks, each line
    made of words joined by blanks. *)
Lemma split_join_lines (wls : list (list string)) :
  Forall (Forall (fun w => is_word w = true)) wls ->
  split (join nl (map (join " ") wls)) = concat wls.
Proof.
  induction wls as [|wl wls IH]; [done |]. intros Hw.
  inversion Hw as [|? ? Hw1 Hw2]; subst.
  destruct wls as [|wl2 wls].
  - simpl. rewrite app_nil_r. by apply split_join.
  - change (join nl (map (join " ") (wl :: wl2 :: wls)))
      with (join " " wl +:+ String newline (join nl (map (join " ") (wl2 :: wls)))).
    rewrite split_join_app; [| done | done].
    rewrite split_cons. change (is_space newline) with true. cbv iota.
    by rewrite IH.
Qed.

Lemma append_to_last_snoc (l : list string) (x s : string) :
  append_to_last (l ++ [x]) s = Some (l ++ [x +:+ s]).
Proof.
  induction l as [|y l IH]; [done |].
  change (append_to_last ((y :: l) ++ [x]) s)
    with (match l ++ [x] with
          | [] => Some [y +:+ s]
          | _ :: _ => cons y <$> append_to_last (l ++ [x]) s
          end).
  rewrite IH. by destruct l.
Qed.

Lemma append_to_last_nonempty (l : list string) (s : string) :
  l <> [] -> exists l0 x, l = l0 ++ [x] /\ append_to_last l s = Some (l0 ++ [x +:+ s]).
Proof.
  intros Hl. destruct (exists_last Hl) as (l0 & x & ->).
  exists l0, x. split; [done | apply append_to_last_snoc].
Qed.

Lemma join_snoc (sep : string) (l : list string) (x : string) :
  l <> [] -> join sep (l ++ [x]) = join sep l +:+ sep +:+ x.
Proof.
  induction l as [|y l IH]; [done |]. intros _.
  destruct l as [|y2 l]; [done |].
  change (join sep ((y :: y2 :: l) ++ [x]))
    with (y +:+ sep +:+ join sep ((y2 :: l) ++ [x])).
  rewrite IH; [| done].
  change (join sep (y :: y2 :: l)) with (y +:+ sep +:+ join sep (y2 :: l)).
  by rewrite !app_assoc_s.
Qed.

Lemma join_snoc_marker (sep : string) (l : list string) (x s : string) :
  join sep (l ++ [x +:+ s]) = join sep (l ++ [x]) +:+ s.
Proof.
  destruct l as [|y l]; [done |].
  rewrite !join_snoc by done. by rewrite !app_assoc_s.
Qed.

Lemma is_word_marker (w : string) :
  is_word w = true -> is_word (w +:+ "...") = true.
Proof.
  intros Hw. assert (Hs : no_space (w +:+ "...") = true).
  { apply is_word_no_space in Hw. induction w as [|c w IH]; [done |].
    simpl in *. apply andb_true_iff in Hw as [-> Hw]. by rewrite IH. }
  destruct w; [done | exact Hs].
Qed.

(** ** The layout loop *)

Lemma skipn_nth_cons {A} (l : list A) (i : nat) (d : A) :
  (i < length l)%nat -> skipn i l = nth i l d :: skipn (S i) l.
Proof.
  revert i. induction l as [|x l IH]; intros [|i] Hi; simpl in *; try lia; [done |].
  apply IH. lia.
Qed.

(** The inner loop takes the next [k] words, where [k] is what the line
    can still hold or what is left, whichever is smaller. *)
Lemma collect_words_spec (words : list string) (target : Z) :
  forall (fuel : nat) (cur : list string) (idx : Z),
    0 <= idx <= len words -> len words - idx <= Z.of_nat fuel ->
    len cur <= target ->
    collect_words fuel words target cur idx =
      let k := Z.to_nat (Z.min (target - len cur) (len words - idx)) in
      (cur ++ firstn k (skipn (Z.to_nat idx) words), idx + Z.of_nat k).
Proof.
  unfold len. induction fuel as [|fuel IH]; intros cur idx Hidx Hfuel Hcur.
  - simpl. replace (Z.to_nat _) with 0%nat by lia.
    simpl. rewrite app_nil_r. f_equal. lia.
  - simpl. fold (len words) (len cur).
    destruct (idx <? len words) eqn:E1; simpl;
      [destruct (len cur <? target) eqn:E2; simpl |]; unfold len in *.
    + apply Z.ltb_lt in E1, E2.
      rewrite IH; [| lia | lia | rewrite length_app; simpl; lia].
      rewrite length_app. simpl.
      replace (Z.to_nat (Z.min (target - Z.of_nat (length cur))
                               (Z.of_nat (length words) - idx)))
        with (S (Z.to_nat (Z.min (target - Z.of_nat (length cur + 1))
                                 (Z.of_nat (length words) - (idx + 1))))) by lia.
      rewrite (skipn_nth_cons words (Z.to_nat idx) "") by lia.
      replace (Z.to_nat (idx + 1)) with (S (Z.to_nat idx)) by lia.
      simpl. rewrite <- app_assoc. simpl. f_equal. lia.
    + apply Z.ltb_ge in E2. replace (Z.to_nat _) with 0%nat by lia.
      simpl. rewrite app_nil_r. f_equal. lia.
    + apply Z.ltb_ge in E1. replace (Z.to_nat _) with 0%nat by lia.
      simpl. rewrite app_nil_r. f_equal. lia.
Qed.

Lemma elem_of_range_down (i start stop : nat) :
  In i (range_down start stop) <-> (stop < i <= start)%nat.
Proof.
  unfold range_down. rewrite <- in_rev, in_seq. lia.
Qed.

(** [find_natural_break] returns a non-empty prefix of the line. *)
Lemma find_natural_break_prefix (cur all : list string) (next_idx : Z) :
  cur <> [] ->
  exists j : nat, (1 <= j <= length cur)%nat /\
    find_natural_break cur all next_idx = firstn j cur.
Proof.
  intros Hne. unfold find_natural_break.
  destruct cur as [|w cur']; [done |]. set (cur := w :: cur') in *.
  assert (Hlen : (1 <= length cur)%nat) by (simpl; lia).
  assert (Hall : exists j : nat, (1 <= j <= length cur)%nat /\ cur = firstn j cur).
  { exists (length cur). split; [lia | by rewrite firstn_all]. }
  destruct (find _ _) as [i|] eqn:Hf.
  - apply find_some in Hf as [Hi _]. apply elem_of_range_down in Hi.
    exists (i + 1)%nat. split; [lia | done].
  - destruct (next_idx <? len all); [| done].
    destruct (existsb _ _ && (3 <? length cur)%nat) eqn:E; [| done].
    apply andb_true_iff in E as [_ E]. apply Nat.ltb_lt in E.
    exists (length cur - 1)%nat. split; [lia |].
    rewrite removelast_firstn_len. f_equal. lia.
Qed.

(** One round of the outer loop takes between one and
    [max_words_per_line] of the remaining words, as they come. *)
Lemma layout_line_spec (words : list string) (mwpl max_lines line_num idx : Z) :
  1 <= mwpl -> 0 <= idx < len words ->
  exists k : nat,
    (1 <= k)%nat /\ Z.of_nat k <= mwpl /\ idx + Z.of_nat k <= len words /\
    layout_line words mwpl max_lines line_num idx =
      (firstn k (skipn (Z.to_nat idx) words), idx + Z.of_nat k).
Proof.
  intros Hm Hidx. unfold layout_line.
  rewrite collect_words_spec; [| lia | unfold len in *; lia | unfold len; simpl; lia].
  cbv zeta. change (len []) with 0. rewrite Z.sub_0_r. simpl app.
  set (k := Z.to_nat (Z.min mwpl (len words - idx))).
  assert (Hk : (1 <= k)%nat /\ Z.of_nat k <= mwpl /\ idx + Z.of_nat k <= len words)
    by (unfold k; lia).
  destruct ((line_num <? max_lines - 1) && (idx + Z.of_nat k <? len words)) eqn:E.
  - apply andb_true_iff in E as [_ E]. apply Z.ltb_lt in E.
    assert (Hkm : Z.of_nat k = mwpl) by (unfold k in *; lia).
    set (cur := firstn k (skipn (Z.to_nat idx) words)).
    assert (Hcl : length cur = k).
    { unfold cur. rewrite length_firstn, length_skipn. unfold len in *. lia. }
    destruct (find_natural_break_prefix cur words (idx + Z.of_nat k)) as (j & Hj & ->).
    { intros Hc. rewrite Hc in Hcl. simpl in Hcl. lia. }
    exists j. split; [lia |]. split; [lia |]. split; [lia |].
    unfold cur at 1. rewrite firstn_firstn. replace (Nat.min j k) with j by lia.
    f_equal. unfold len. rewrite length_firstn, Hcl. lia.
  - exists k. by repeat split; try lia.
Qed.

Lemma layout_lines_spec (words : list string) (mwpl max_lines : Z) :
  1 <= mwpl ->
  forall (line_nums : list Z) (wls : list (list string)) (idx : Z),
    laid_out words mwpl wls idx ->
    exists (wls' : list (list string)) (idx' : Z),
      layout_lines words mwpl max_lines line_nums (map (join " ") wls) idx
        = (map (join " ") wls', idx') /\
      laid_out words mwpl wls' idx' /\
      (length wls' <= length wls + length line_nums)%nat /\
      (wls' = [] -> wls = [] /\ (line_nums = [] \/ len words <= idx)).
Proof.
  intros Hm. induction line_nums as [|ln rest IH]; intros wls idx Hinv.
  - exists wls, idx. simpl.
    split; [done |]. split; [done |]. split; [lia | tauto].
  - simpl. destruct (len words <=? idx) eqn:E.
    + apply Z.leb_le in E. exists wls, idx.
      split; [done |]. split; [done |]. split; [lia | tauto].
    + apply Z.leb_gt in E. destruct Hinv as (Hidx & Hcat & Hall).
      destruct (layout_line_spec words mwpl max_lines ln idx Hm)
        as (k & Hk1 & Hk2 & Hk3 & ->); [lia |].
      set (cur := firstn k (skipn (Z.to_nat idx) words)).
      assert (Hcl : length cur = k).
      { unfold cur. rewrite length_firstn, length_skipn. unfold len in *. lia. }
      replace (map (join " ") wls ++ [join " " cur])
        with (map (join " ") (wls ++ [cur])) by (by rewrite map_app).
      destruct (IH (wls ++ [cur]) (idx + Z.of_nat k)) as (wls' & idx' & -> & Hinv' & Hlen & Hne).
      { split; [lia |]. split.
        - rewrite concat_app, Hcat. simpl. rewrite app_nil_r. unfold cur.
          replace (Z.to_nat (idx + Z.of_nat k)) with (Z.to_nat idx + k)%nat by lia.
          apply take_take_drop.
        - apply Forall_app. split; [done |]. constructor; [| done].
          split; [| unfold len; lia]. intros Hc. rewrite Hc in Hcl. simpl in Hcl. lia. }
      exists wls', idx'. split; [done |]. split; [done |]. split.
      * rewrite length_app in Hlen. simpl in *. lia.
      * intros Hw. destruct (Hne Hw) as [Hnil _]. by destruct wls.
Qed.

Lemma words_of_title (node_content : string) :
  split (normalize node_content) = split node_content.
Proof.
  unfold normalize. rewrite split_join by apply split_all_words. apply split_strip.
Qed.

(** The result of [get_smart_title] on a text that does not fit on one
    line: the lines [wls], as lists of words, hold the first [k] words
    of the text, and the marker goes onto the last word when [k] falls
    short of the whole text. *)
Lemma get_smart_title_long (node_content : string) (mwpl max_lines : Z) :
  1 <= mwpl -> 1 <= max_lines ->
  mwpl < len (split node_content) ->
  exists (wls wls' : list (list string)) (k : nat),
    wls <> [] /\
    Forall (fun wl => wl <> [] /\ len wl <= mwpl) wls /\
    len wls <= max_lines /\
    concat wls = firstn k (split node_content) /\
    (k <= length (split node_content))%nat /\
    get_smart_title node_content mwpl max_lines
      = Some (join nl (map (join " ") wls')) /\
    ((k = length (split node_content) /\ wls' = wls) \/
     (k < length (split node_content))%nat /\
      exists wls0 wl0 w, wls = wls0 ++ [wl0 ++ [w]] /\
                         wls' = wls0 ++ [wl0 ++ [w +:+ "..."]]).
Proof.
  intros Hm Hl Hlong. unfold get_smart_title.
  fold (normalize node_content). rewrite words_of_title.
  set (words := split node_content) in *.
  destruct (len words <=? mwpl) eqn:E; [apply Z.leb_le in E; lia |].
  destruct (layout_lines_spec words mwpl max_lines Hm (py_range max_lines) [] 0)
    as (wls & idx & Hrun & (Hidx & Hcat & Hall) & Hlen & Hne).
  { split; [unfold len; lia |]. split; [done | constructor]. }
  simpl map in Hrun. rewrite Hrun.
  assert (Hwls : wls <> []).
  { intros Hw. destruct (Hne Hw) as [_ [Hr | Hr]]; [| lia].
    unfold py_range in Hr. apply (f_equal (@length Z)) in Hr.
    rewrite length_map, length_seq in Hr. simpl in Hr. lia. }
  assert (Hcount : len wls <= max_lines).
  { unfold py_range in Hlen. rewrite length_map, length_seq in Hlen.
    simpl in Hlen. unfold len. lia. }
  destruct (idx <? len words) eqn:Et.
  - apply Z.ltb_lt in Et.
    destruct (exists_last Hwls) as (wls0 & wl & ->).
    assert (Hwl : wl <> []).
    { apply Forall_app in Hall as [_ Hall]. inversion Hall as [|? ? [Hwl _] _]; done. }
    destruct (exists_last Hwl) as (wl0 & w & ->).
    exists (wls0 ++ [wl0 ++ [w]]), (wls0 ++ [wl0 ++ [w +:+ "..."]]), (Z.to_nat idx).
    split; [done |]. split; [done |]. split; [done |]. split; [done |].
    split; [unfold len in *; lia |]. split; [| right].
    + rewrite map_app. simpl map. rewrite append_to_last_snoc.
      simpl. rewrite map_app. simpl map. by rewrite (join_snoc_marker " ").
    + split; [unfold len in *; lia | eauto].
  - apply Z.ltb_ge in Et.
    exists wls, wls, (Z.to_nat idx).
    split; [done |]. split; [done |]. split; [done |]. split; [done |].
    split; [unfold len in *; lia |]. split; [done | left].
    split; [unfold len in *; lia | done].
Qed.

(** Every result of [get_smart_title] within positive bounds, short text
    or long: lines [wls] of words, joined by blanks and line breaks. *)
Lemma title_lines (node_content : string) (mwpl max_lines : Z) :
  1 <= mwpl -> 1 <= max_lines ->
  exists (wls : list (list string)) (k : nat),
    get_smart_title node_content mwpl max_lines
      = Some (join nl (map (join " ") wls)) /\
    wls <> [] /\
    Forall (fun wl => Forall (fun w => is_word w = true) wl /\ len wl <= mwpl) wls /\
    len wls <= max_lines /\
    (k <= length (split node_content))%nat /\
    (if (k <? length (split node_content))%nat
     then append_to_last (firstn k (split node_content)) "..." = Some (concat wls)
     else concat wls = split node_content).
Proof.
  intros Hm Hl. pose proof (split_all_words node_content) as Hwords.
  destruct (Z_le_gt_dec (len (split node_content)) mwpl) as [Hshort | Hlong].
  - exists [split node_content], (length (split node_content)).
    split.
    { unfold get_smart_title. fold (normalize node_content).
      rewrite words_of_title. apply Z.leb_le in Hshort. rewrite Hshort.
      unfold normalize. by rewrite split_strip. }
    split; [done |]. split; [by repeat constructor |].
    split; [unfold len; simpl; lia |]. split; [lia |].
    rewrite Nat.ltb_irrefl. simpl. apply app_nil_r.
  - destruct (get_smart_title_long node_content mwpl max_lines Hm Hl)
      as (wls & wls' & k & Hne & Hall & Hcount & Hcat & Hk & Hrun & Hcase); [lia |].
    assert (Hw : Forall (Forall (fun w => is_word w = true)) wls).
    { apply Forall_concat. rewrite Hcat. by apply Forall_take. }
    destruct Hcase as [[-> ->] | (Hlt & wls0 & wl0 & w & -> & ->)].
    + exists wls, (length (split node_content)).
      split; [done |]. split; [done |]. split.
      { apply Forall_forall. intros wl Hin.
        rewrite Forall_forall in Hall, Hw. split; [by apply Hw | by apply Hall]. }
      split; [done |]. split; [lia |].
      rewrite Nat.ltb_irrefl. by rewrite Hcat, firstn_all.
    + exists (wls0 ++ [wl0 ++ [w +:+ "..."]]), k.
      split; [done |]. split; [by destruct wls0 |].
      apply Forall_app in Hall as [Hall0 Hall1], Hw as [Hw0 Hw1].
      inversion Hall1 as [|? ? [_ Hlen1] _]; subst.
      inversion Hw1 as [|? ? Hw1' _]; subst.
      apply Forall_app in Hw1' as [Hwl0 Hw1'].
      inversion Hw1' as [|? ? Hwm _]; subst.
      split.
      { apply Forall_app. split.
        - apply Forall_forall. intros wl Hin.
          rewrite Forall_forall in Hall0, Hw0. split; [by apply Hw0 | by apply Hall0].
        - constructor; [| done]. split.
          + apply Forall_app. split; [done |]. constructor; [| done].
            by apply is_word_marker.
          + unfold len in *. rewrite length_app in *. simpl in *. lia. }
      split; [unfold len in *; rewrite length_app in *; simpl in *; lia |].
      split; [lia |].
      apply Nat.ltb_lt in Hlt. rewrite Hlt. rewrite <- Hcat.
      rewrite !concat_app. simpl. rewrite !app_nil_r, !app_assoc.
      apply append_to_last_snoc.
Qed.

(** C5. Within bounds of at least one word and one line, the title has
    at most [max_lines] lines and no line has more than
    [max_words_per_line] words; the marker is part of the word it is
    appended to. *)
Theorem title_within_bounds (node_content : string)
    (max_words_per_line max_lines : Z) :
  1 <= max_words_per_line -> 1 <= max_lines ->
  exists out : string,
    get_smart_title node_content max_words_per_line max_lines = Some out /\
    len (split_on newline out) <= max_lines /\
    Forall (fun line => len (split line) <= max_words_per_line)
           (split_on newline out).
Proof.
  intros Hm Hl.
  destruct (title_lines node_content max_words_per_line max_lines Hm Hl)
    as (wls & k & Hrun & Hne & Hall & Hcount & _).
  exists (join nl (map (join " ") wls)). split; [done |].
  assert (Hlines : split_on newline (join nl (map (join " ") wls))
                   = map (join " ") wls).
  { apply split_on_join; [by destruct wls |].
    apply Forall_map. eapply Forall_impl; [exact Hall |].
    intros wl [Hw _]. by apply no_newline_join. }
  rewrite Hlines. split; [unfold len in *; by rewrite length_map |].
  apply Forall_map. eapply Forall_impl; [exact Hall |].
  intros wl [Hw Hlen]. simpl. by rewrite split_join.
Qed.

Lemma title_within_bounds_witness :
  exists out : string,
    get_smart_title "Natural Language Processing, Machine Learning, and Deep Learning are important fields" 4 3
      = Some out /\
    len (split_on newline out) <= 3 /\
    Forall (fun line => len (split line) <= 4) (split_on newline out).
Proof. apply title_within_bounds; lia. Defined.

(** C10. Within bounds of at least one word and one line, the words of
    the title are the first [k] words of the normalised text, in order
    and unchanged; when [k] falls short of the whole text the marker is
    appended to the last of them. *)
Theorem title_words_are_prefix (node_content : string)
    (max_words_per_line max_lines : Z) :
  1 <= max_words_per_line -> 1 <= max_lines ->
  exists (out : string) (k : nat),
    get_smart_title node_content max_words_per_line max_lines = Some out /\
    (k <= length (split (normalize node_content)))%nat /\
    (if (k <? length (split (normalize node_content)))%nat
     then append_to_last (firstn k (split (normalize node_content))) "..."
          = Some (split out)
     else split out = split (normalize node_content)).
Proof.
  intros Hm Hl. rewrite words_of_title.
  destruct (title_lines node_content max_words_per_line max_lines Hm Hl)
    as (wls & k & Hrun & Hne & Hall & Hcount & Hk & Hcase).
  exists (join nl (map (join " ") wls)), k. split; [done |]. split; [done |].
  rewrite split_join_lines; [done |].
  eapply Forall_impl; [exact Hall |]. by intros wl [Hw _].
Qed.

Lemma title_words_are_prefix_witness :
  exists (out : string) (k : nat),
    get_smart_title "one two, three four five six seven" 3 2 = Some out /\
    (k <= length (split (normalize "one two, three four five six seven")))%nat /\
    (if (k <? length (split (normalize "one two, three four five six seven")))%nat
     then append_to_last
            (firstn k (split (normalize "one two, three four five six seven"))) "..."
          = Some (split out)
     else split out = split (normalize "one two, three four five six seven")).
Proof. apply title_words_are_prefix; lia. Defined.

Lemma normalize_idempotent (node_content : string) :
  normalize (normalize node_content) = normalize node_content.
Proof.
  unfold normalize at 1. rewrite split_strip, words_of_title.
  unfold normalize. by rewrite split_strip.
Qed.

Lemma get_smart_title_short (node_content : string) (mwpl max_lines : Z) :
  len (split (normalize node_content)) <= mwpl ->
  get_smart_title node_content mwpl max_lines = Some (normalize node_content).
Proof.
  intros H. unfold get_smart_title. fold (normalize node_content).
  apply Z.leb_le in H. by rewrite H.
Qed.

(** C6. A text of at most [max_words_per_line] words comes back as its
    normalised form, whatever [max_lines] is: one line, no line break,
    nothing appended; on a text that is already normalised the
    formatter is the identity. *)
Theorem short_title_unchanged (node_content : string)
    (max_words_per_line max_lines : Z) :
  len (split (normalize node_content)) <= max_words_per_line ->
  get_smart_title node_content max_words_per_line max_lines
    = Some (normalize node_content) /\
  split_on newline (normalize node_content) = [normalize node_content] /\
  get_smart_title (normalize node_content) max_words_per_line max_lines
    = Some (normalize node_content) /\
  (normalize node_content = node_content ->
   get_smart_title node_content max_words_per_line max_lines = Some node_content).
Proof.
  intros H. split; [by apply get_smart_title_short |]. split.
  { apply split_on_no_newline. unfold normalize.
    apply no_newline_join, split_all_words. }
  split.
  { rewrite <- (normalize_idempotent node_content) at 2.
    apply get_smart_title_short. by rewrite normalize_idempotent. }
  intros Hn. rewrite <- Hn at 2. by apply get_smart_title_short.
Qed.

Lemma short_title_unchanged_witness :
  get_smart_title "  Short   text " 2 1 = Some (normalize "  Short   text ") /\
  split_on newline (normalize "  Short   text ") = [normalize "  Short   text "] /\
  get_smart_title (normalize "  Short   text ") 2 1
    = Some (normalize "  Short   text ") /\
  (normalize "  Short   text " = "  Short   text " ->
   get_smart_title "  Short   text " 2 1 = Some "  Short   text ").
Proof. apply short_title_unchanged. vm_compute. discriminate. Defined.

(** ** The natural break *)

Lemma range_down_cons (start stop : nat) :
  (stop < start)%nat -> range_down start stop = start :: range_down (start - 1) stop.
Proof.
  intros H. unfold range_down.
  replace (start - stop)%nat with (S (start - 1 - stop)) by lia.
  rewrite seq_S, rev_app_distr. simpl. f_equal. lia.
Qed.

Lemma find_range_down (f : nat -> bool) (stop i : nat) :
  forall start : nat,
    (stop < i <= start)%nat -> f i = true ->
    (forall j, (i < j <= start)%nat -> f j = false) ->
    find f (range_down start stop) = Some i.
Proof.
  intros start. remember (start - i)%nat as d eqn:Hd. revert start Hd.
  induction d as [|d IH]; intros start Hd Hi Hf Hno.
  - assert (start = i) as -> by lia. rewrite range_down_cons by lia.
    simpl. by rewrite Hf.
  - rewrite range_down_cons by lia. simpl. rewrite Hno by lia.
    apply IH; [lia | lia | done |]. intros j Hj. apply Hno. lia.
Qed.

Lemma collect_words_negative (fuel : nat) (words : list string) (target idx : Z) :
  target <= 0 -> collect_words fuel words target [] idx = ([], idx).
Proof.
  intros H. destruct fuel as [|fuel]; [done |]. simpl.
  replace (len [] <? target) with false; [by rewrite andb_false_r |].
  symmetry. apply Z.ltb_ge. unfold len. simpl. lia.
Qed.

Lemma natural_break_rule_holds : natural_break_rule last_three_but_first.
Proof.
  intros words mwpl max_lines line_num idx filled idx' i
         Hidx Hfill Hln Hmore Hi Hwin Hbrk Hright.
  destruct (Z_le_gt_dec mwpl 0) as [Hneg | Hpos].
  { rewrite collect_words_negative in Hfill by done.
    injection Hfill as <- <-. simpl in Hi. lia. }
  rewrite collect_words_spec in Hfill; [| lia | unfold len in *; lia | unfold len; simpl; lia].
  cbv zeta in Hfill. change (len []) with 0 in Hfill. rewrite Z.sub_0_r in Hfill.
  simpl app in Hfill.
  set (k := Z.to_nat (Z.min mwpl (len words - idx))) in *.
  assert (Hlen : length filled = k).
  { injection Hfill as <- _. rewrite length_firstn, length_skipn.
    unfold k, len in *. lia. }
  assert (Hk : Z.of_nat k = mwpl).
  { injection Hfill as _ <-. unfold k in *. lia. }
  unfold layout_line.
  rewrite collect_words_spec; [| lia | unfold len in *; lia | unfold len; simpl; lia].
  cbv zeta. change (len []) with 0. rewrite Z.sub_0_r. simpl app. fold k.
  injection Hfill as Hf1 Hf2. rewrite Hf1, Hf2.
  replace (line_num <? max_lines - 1) with true by (symmetry; apply Z.ltb_lt; lia).
  replace (idx' <? len words) with true by (symmetry; apply Z.ltb_lt; lia).
  simpl andb. cbv iota.
  assert (Hcut : find_natural_break filled words idx' = firstn (i + 1) filled).
  { unfold find_natural_break. destruct filled as [|w rest]; [simpl in Hi; lia |].
    set (line := w :: rest) in *.
    unfold last_three_but_first in Hwin.
    apply andb_true_iff in Hwin as [H1 H3].
    apply Nat.leb_le in H1, H3.
    rewrite (find_range_down _ _ i); [done | lia | done |].
    intros j Hj. apply Hright. lia. }
  rewrite Hcut. f_equal. unfold len. rewrite length_firstn. lia.
Qed.

(** C7, as the code has it. When a line that is not the last permitted
    one closes with words left over, and one of its last three words,
    the first word of the line left aside, ends with one of the marks
    , ; : . ! ? then the line is cut after the rightmost such word and
    the words after it start the next line. *)
Theorem natural_break_after_punctuation
    (words : list string) (max_words_per_line max_lines line_num word_idx : Z)
    (filled : list string) (word_idx' : Z) (i : nat) :
  0 <= word_idx <= len words ->
  collect_words (length words) words max_words_per_line [] word_idx
    = (filled, word_idx') ->
  line_num < max_lines - 1 -> word_idx' < len words ->
  (1 <= i < length filled)%nat -> (length filled - 3 <= i)%nat ->
  ends_with_break (nth i filled "") = true ->
  (forall j, (i < j < length filled)%nat ->
             ends_with_break (nth j filled "") = false) ->
  layout_line words max_words_per_line max_lines line_num word_idx
    = (firstn (i + 1) filled, word_idx + Z.of_nat (i + 1)).
Proof.
  intros Hidx Hfill Hln Hmore Hi Hwin Hbrk Hright.
  apply (natural_break_rule_holds words max_words_per_line max_lines line_num
           word_idx filled word_idx' i); try done; [lia |].
  unfold last_three_but_first. apply andb_true_iff.
  split; apply Nat.leb_le; lia.
Qed.

Lemma natural_break_after_punctuation_witness :
  layout_line ["a"; "b,"; "c"; "d"; "e"] 4 2 0 0 = (["a"; "b,"], 2).
Proof.
  apply (natural_break_after_punctuation
           ["a"; "b,"; "c"; "d"; "e"] 4 2 0 0 ["a"; "b,"; "c"; "d"] 4 1);
    try reflexivity; try (unfold len; simpl; lia).
  intros j Hj. simpl in Hj.
  assert (j = 2 \/ j = 3)%nat as [-> | ->] by lia; reflexivity.
Defined.

(** The claim as the specification words it, with the last four words
    of the line in the window, fails: in a line of four words the first
    one is not looked at. *)
Lemma natural_break_last_four_fails : ~ natural_break_rule last_four.
Proof.
  intros H.
  specialize (H ["a,"; "b"; "c"; "d"; "e"] 4 2 0 0 ["a,"; "b"; "c"; "d"] 4 0%nat).
  assert (Hrun : layout_line ["a,"; "b"; "c"; "d"; "e"] 4 2 0 0
                 = (["a,"], 1)).
  { apply H; try reflexivity; try (unfold len; simpl; lia).
    intros j Hj. simpl in Hj.
    assert (j = 1 \/ j = 2 \/ j = 3)%nat as [-> | [-> | ->]] by lia; reflexivity. }
  vm_compute in Hrun. discriminate.
Qed.

(** ** Reconciliation *)

Section ReconcilerFacts.
Variable json_loads : string -> option json.
Variable Graph_init : list (string * json) -> exn + Graph.t.

(** [try_line] hands [graph] through or replaces it; what it does
    otherwise does not depend on [graph]. *)
Lemma try_line_graph (graph : option Graph.t) (line : string) :
  try_line json_loads Graph_init graph line =
    match try_line json_loads Graph_init None line with
    | inr (None, fl) => inr (graph, fl)
    | r => r
    end.
Proof.
  unfold try_line. destruct (json_loads line) as [[ | | | | |ev]|]; try done.
  destruct (is_str _ "SystemFinishEvent").
  { by destruct (graph_of_data _ _) as [|[|]]. }
  destruct (is_str _ "GraphMergeEvent"); [| done].
  by destruct (graph_of_data _ _) as [|[|]].
Qed.


(** The records that pass, by kind: blank lines, lines that do not
    decode, incremental merges, and events of any other kind but the
    full snapshot; all but the merges keep the graph as well. *)
Lemma passes_blank (line : string) :
  strip line = "" ->
  passes json_loads Graph_init line = true /\
  keeps json_loads Graph_init line = true.
Proof. intros H. unfold passes, keeps. by rewrite H. Qed.

Lemma passes_undecodable (line : string) :
  json_loads line = None ->
  passes json_loads Graph_init line = true /\
  keeps json_loads Graph_init line = true.
Proof.
  intros H. unfold passes, keeps, try_line. rewrite H. simpl.
  by rewrite !orb_true_r.
Qed.


Lemma passes_other_event (line : string) (ev : list (string * json)) :
  json_loads line = Some (JObj ev) ->
  is_str (default JNull (dict_get ev "event")) "SystemFinishEvent" = false ->
  is_str (default JNull (dict_get ev "event")) "GraphMergeEvent" = false ->
  passes json_loads Graph_init line = true /\
  keeps json_loads Graph_init line = true.
Proof.
  intros H H1 H2. unfold passes, keeps, try_line. rewrite H, H1, H2.
  by rewrite !orb_true_r.
Qed.

(** The scan of records that all pass goes to their end. *)
Lemma scan_lines_passes (pre : list string) :
  forallb (passes json_loads Graph_init) pre = true ->
  forall (graph : option Graph.t) (warnings : list exn),
  exists graph' warnings',
    forall rest,
      scan_lines json_loads Graph_init (pre ++ rest) graph warnings
      = scan_lines json_loads Graph_init rest graph' warnings'.
Proof.
  induction pre as [|line pre IH]; intros Hp graph warnings.
  { by exists graph, warnings. }
  simpl in Hp. apply andb_true_iff in Hp as [Hl Hp]. unfold passes in Hl.
  simpl. destruct (String.eqb (strip line) "") eqn:Hb.
  { destruct (IH Hp graph warnings) as (g' & w' & H). by exists g', w'. }
  simpl in Hl. rewrite try_line_graph.
  destruct (try_line json_loads Graph_init None line) as [e|[[g0|] [|]]]; try done.
  - rewrite Hl. destruct (IH Hp graph (warnings ++ [e])) as (g' & w' & H).
    by exists g', w'.
  - destruct (IH Hp (Some g0) warnings) as (g' & w' & H). by exists g', w'.
  - destruct (IH Hp graph warnings) as (g' & w' & H). by exists g', w'.
Qed.


Lemma is_str_true (v : json) (s : string) : is_str v s = true -> v = JStr s.
Proof.
  destruct v; try done. simpl. intros H. apply String.eqb_eq in H. by subst.
Qed.

Lemma graph_of_data_some (data : json) (g : Graph.t) :
  graph_of_data Graph_init data = inr (Some g) ->
  exists d gd,
    data = JObj d /\ dict_get d "graph" = Some (JObj gd) /\ gd <> [] /\
    Graph_init gd = inr g.
Proof.
  unfold graph_of_data. destruct data as [ | | | | |d]; try done.
  destruct (dict_get d "graph") as [gv|] eqn:Hg; simpl; [| done].
  destruct (truthy gv) eqn:Ht; [| done].
  destruct gv as [ | | | | |gd]; try done.
  destruct (Graph_init gd) as [e|g'] eqn:Hi; [done |]. intros [= <-].
  exists d, gd. split; [done |]. split; [done |]. split; [by destruct gd | done].
Qed.

(** A graph that [try_line] hands on is the one it was given or the one
    of an event of the line. *)
Lemma try_line_some (graph : option Graph.t) (line : string) (g : Graph.t) (fl : flow) :
  strip line <> "" ->
  try_line json_loads Graph_init graph line = inr (Some g, fl) ->
  graph = Some g \/
  exists tag, (tag = "SystemFinishEvent" \/ tag = "GraphMergeEvent") /\
              event_with_graph json_loads Graph_init tag line g.
Proof.
  intros Hnb. unfold try_line.
  destruct (json_loads line) as [[ | | | | |ev]|] eqn:Hl; try done.
  assert (Hev : forall tag,
            is_str (default JNull (dict_get ev "event")) tag = true ->
            graph_of_data Graph_init (default (JObj []) (dict_get ev "data"))
              = inr (Some g) ->
            event_with_graph json_loads Graph_init tag line g).
  { intros tag Htag Hdata. apply is_str_true in Htag.
    destruct (graph_of_data_some _ _ Hdata) as (d & gd & Hd & Hg & Hne & Hi).
    split; [done |]. exists ev, d, gd. split; [done |].
    split; [by destruct (dict_get ev "event"); simplify_eq/= |].
    split; [| done].
    destruct (dict_get ev "data") as [v|]; simpl in Hd; [by subst |].
    injection Hd as <-. done. }
  destruct (is_str _ "SystemFinishEvent") eqn:E1.
  { destruct (graph_of_data _ _) as [e|[g'|]] eqn:Hd; try done.
    - intros [= <- _]. right. exists "SystemFinishEvent". split; [by left | by apply Hev].
    - intros [= -> _]. by left. }
  destruct (is_str _ "GraphMergeEvent") eqn:E2.
  { destruct (graph_of_data _ _) as [e|[g'|]] eqn:Hd; try done.
    - intros [= <- _]. right. exists "GraphMergeEvent". split; [by right | by apply Hev].
    - intros [= -> _]. by left. }
  intros [= -> _]. by left.
Qed.









End ReconcilerFacts.

(** ** Levels *)

Lemma dict_mem_get {V} (d : list (string * V)) (k : string) :
  dict_mem d k = true <-> exists v, dict_get d k = Some v.
Proof.
  unfold dict_mem. destruct (dict_get d k) as [v|].
  - split; [eauto | done].
  - split; [done | by intros [? ?]].
Qed.

Lemma dict_get_keys {V} (d : list (string * V)) (k : string) (v : V) :
  dict_get d k = Some v -> In k (dict_keys d).
Proof.
  induction d as [|[k' v'] d IH]; [done |]. simpl.
  destruct (String.eqb k' k) eqn:E; [apply String.eqb_eq in E; auto | auto].
Qed.

Lemma dict_keys_get {V} (d : list (string * V)) (k : string) :
  In k (dict_keys d) -> exists v, dict_get d k = Some v.
Proof.
  induction d as [|[k' v'] d IH]; [done |]. simpl.
  destruct (String.eqb k' k) eqn:E; [eauto |].
  intros [-> | H]; [by rewrite String.eqb_refl in E | auto].
Qed.

Lemma max_list_ge (ls : list nat) (l : nat) : In l ls -> (l <= max_list ls)%nat.
Proof.
  induction ls as [|x ls IH]; [done |]. simpl. intros [-> | H]; [lia |].
  specialize (IH H). lia.
Qed.

Lemma Forall2_In_l {A B} (R : A -> B -> Prop) (xs : list A) (ys : list B) (x : A) :
  Forall2 R xs ys -> In x xs -> exists y, In y ys /\ R x y.
Proof.
  induction 1 as [|x0 y0 xs ys H0 H IH]; [done |]. simpl.
  intros [-> | Hin]; [eauto |]. destruct (IH Hin) as (y & ? & ?). eauto.
Qed.

Lemma Forall2_pointwise {A B} (R : A -> B -> Prop) (xs : list A) :
  (forall x, In x xs -> exists y, R x y) -> exists ys, Forall2 R xs ys.
Proof.
  induction xs as [|x xs IH]; intros H; [by exists [] |].
  destruct (H x) as [y Hy]; [by left |].
  destruct IH as [ys Hys]; [intros x' Hx'; apply H; by right |].
  exists (y :: ys). by constructor.
Qed.

Lemma Forall2_level_fun (graph : Graph.t) (ps : list string) (ls ls' : list nat) :
  (forall p l l', In l ls -> level_of graph p l -> level_of graph p l' -> l = l') ->
  Forall2 (level_of graph) ps ls -> Forall2 (level_of graph) ps ls' -> ls = ls'.
Proof.
  intros Hfun Hls. revert ls'.
  induction Hls as [|p l ps ls Hp Hps IH]; intros ls' Hls';
    inversion Hls' as [|? l' ? ls'' Hp' Hps']; subst; [done |].
  f_equal.
  - apply (Hfun p); [by left | done | done].
  - apply IH; [| done]. intros q m m' Hm. apply Hfun. by right.
Qed.

(** A node has at most one level. *)
Lemma level_of_fun (graph : Graph.t) :
  forall (l1 : nat) (n : string) (l2 : nat),
    level_of graph n l1 -> level_of graph n l2 -> l1 = l2.
Proof.
  induction l1 as [l1 IH] using lt_wf_ind. intros n l2 H1 H2.
  destruct H1 as [n node Hn He | n node ls Hn He Hls];
    inversion H2 as [? node' Hn' He' | ? node' ls' Hn' He' Hls']; subst;
    rewrite Hn in Hn'; injection Hn' as <-; try done.
  f_equal. f_equal. apply (Forall2_level_fun graph (existing_premises graph node));
    [| done | done].
  intros p l l' Hl. apply IH. apply max_list_ge in Hl. lia.
Qed.

Lemma memo_le_refl (levels : gmap string nat) : memo_le levels levels.
Proof. by intros k l. Qed.

Lemma memo_le_trans (a b c : gmap string nat) :
  memo_le a b -> memo_le b c -> memo_le a c.
Proof. intros Hab Hbc k l H. by apply Hbc, Hab. Qed.

Lemma memo_le_insert (levels levels' : gmap string nat) (n : string) (l : nat) :
  levels !! n = None -> memo_le levels levels' -> memo_le levels (<[n:=l]> levels').
Proof.
  intros Hn Hle k v Hk. destruct (decide (n = k)) as [-> | Hne]; [congruence |].
  rewrite lookup_insert_ne by done. by apply Hle.
Qed.

Lemma memo_ok_insert (graph : Graph.t) (levels : gmap string nat) (n : string) (l : nat) :
  memo_ok graph levels -> level_of graph n l -> memo_ok graph (<[n:=l]> levels).
Proof.
  intros Hok Hl k v. destruct (decide (n = k)) as [-> | Hne].
  - rewrite lookup_insert_eq. by intros [= <-].
  - rewrite lookup_insert_ne by done. apply Hok.
Qed.

Lemma parent_levels_of_sound (graph : Graph.t)
    (rec : gmap string nat -> string -> option (gmap string nat * nat)) :
  sound_rec graph rec ->
  forall pids levels levels' ls,
    parent_levels_of rec graph levels pids = Some (levels', ls) ->
    memo_ok graph levels ->
    memo_ok graph levels' /\ memo_le levels levels' /\
    Forall2 (level_of graph) (List.filter (dict_mem (Graph.nodes graph)) pids) ls.
Proof.
  intros Hrec. induction pids as [|pid pids IH]; intros levels levels' ls Hrun Hok.
  - injection Hrun as <- <-. split; [done |]. split; [apply memo_le_refl | constructor].
  - simpl in *. destruct (dict_mem (Graph.nodes graph) pid) eqn:Hmem; [| by apply IH].
    destruct (rec levels pid) as [[levels1 l]|] eqn:Hcall; [| done].
    destruct (parent_levels_of rec graph levels1 pids) as [[levels2 ls2]|] eqn:Hrest;
      [| done].
    injection Hrun as <- <-.
    destruct (Hrec _ _ _ _ Hcall Hok) as (Hok1 & Hle1 & Hl).
    destruct (IH _ _ _ Hrest Hok1) as (Hok2 & Hle2 & Hls).
    split; [done |]. split; [by eapply memo_le_trans |].
    constructor; [by apply Hl | done].
Qed.

Lemma get_level_sound (graph : Graph.t) (fuel : nat) :
  sound_rec graph (get_level fuel graph).
Proof.
  induction fuel as [|fuel IH]; intros levels n levels' l Hrun Hok; [done |].
  simpl in Hrun. destruct (levels !! n) as [l0|] eqn:Hmemo.
  { injection Hrun as <- <-. split; [done |]. split; [apply memo_le_refl |].
    intros _. split; [done | by apply Hok]. }
  destruct (dict_get (Graph.nodes graph) n) as [node|] eqn:Hnode.
  2:{ injection Hrun as <- <-. split; [done |]. split; [apply memo_le_refl |].
      intros Hmem. apply dict_mem_get in Hmem as [v Hv]. congruence. }
  destruct (Node.premises node) as [|p ps] eqn:Hprem.
  { injection Hrun as <- <-.
    assert (Hl : level_of graph n 0).
    { eapply level_of_root; [done |]. unfold existing_premises. by rewrite Hprem. }
    split; [by apply memo_ok_insert |].
    split; [apply memo_le_insert; [done | apply memo_le_refl] |].
    intros _. split; [apply lookup_insert_eq | done]. }
  rewrite <- Hprem in Hrun.
  destruct (parent_levels_of _ _ _ _) as [[levels1 ls]|] eqn:Hpar; [| done].
  injection Hrun as <- <-.
  destruct (parent_levels_of_sound graph _ IH _ _ _ _ Hpar Hok) as (Hok1 & Hle1 & Hls).
  fold (existing_premises graph node) in Hls.
  set (level := match ls with [] => 0%nat | _ :: _ => (max_list ls + 1)%nat end).
  assert (Hl : level_of graph n level).
  { unfold level. destruct ls as [|l1 ls].
    - eapply level_of_root; [done |]. by inversion Hls.
    - eapply level_of_step; [done | | done]. intros He. rewrite He in Hls.
      inversion Hls. }
  split; [by apply memo_ok_insert |].
  split; [by apply memo_le_insert |].
  intros _. split; [apply lookup_insert_eq | done].
Qed.

(** What a call does when the node has a level and the fuel exceeds it. *)
Lemma parent_levels_of_total (graph : Graph.t)
    (rec : gmap string nat -> string -> option (gmap string nat * nat)) :
  sound_rec graph rec ->
  forall pids levels,
    (forall p, In p pids -> dict_mem (Graph.nodes graph) p = true ->
               forall levels, memo_ok graph levels -> is_Some (rec levels p)) ->
    memo_ok graph levels ->
    is_Some (parent_levels_of rec graph levels pids).
Proof.
  intros Hrec. induction pids as [|pid pids IH]; intros levels Hcalls Hok; [done |].
  simpl. destruct (dict_mem (Graph.nodes graph) pid) eqn:Hmem.
  - destruct (Hcalls pid (or_introl eq_refl) Hmem levels Hok) as [[levels1 l] Hcall].
    rewrite Hcall. destruct (Hrec _ _ _ _ Hcall Hok) as (Hok1 & _ & _).
    destruct (IH levels1) as [[levels2 ls] Hrest]; [| done |].
    { intros p Hp. apply Hcalls. by right. }
    by rewrite Hrest.
  - apply IH; [| done]. intros p Hp. apply Hcalls. by right.
Qed.

Lemma get_level_total (graph : Graph.t) :
  forall (l : nat) (n : string),
    level_of graph n l ->
    forall (fuel : nat) (levels : gmap string nat),
      (l < fuel)%nat -> memo_ok graph levels ->
      is_Some (get_level fuel graph levels n).
Proof.
  induction l as [l IH] using lt_wf_ind. intros n Hl fuel levels Hfuel Hok.
  destruct fuel as [|fuel]; [lia |]. simpl.
  destruct (levels !! n) as [l0|]; [done |].
  assert (Hpar : forall node, dict_get (Graph.nodes graph) n = Some node ->
                 is_Some (parent_levels_of (get_level fuel graph) graph levels
                                           (Node.premises node))).
  { intros node Hnode. apply parent_levels_of_total; [apply get_level_sound | | done].
    intros p Hp Hmem levels0 Hok0.
    assert (Hin : In p (existing_premises graph node)).
    { unfold existing_premises. apply filter_In. by split. }
    inversion Hl as [? node' Hn' He | ? node' ls Hn' He Hls]; subst;
      rewrite Hnode in Hn'; injection Hn' as <-.
    - rewrite He in Hin. done.
    - destruct (Forall2_In_l _ _ _ _ Hls Hin) as (lp & Hlp & Hp_level).
      apply (IH lp) with (n := p); [| done | | done];
        apply max_list_ge in Hlp; lia. }
  destruct (dict_get (Graph.nodes graph) n) as [node|] eqn:Hnode; [| done].
  destruct (Hpar node eq_refl) as [[levels1 ls] Hrun].
  destruct (Node.premises node); [done |]. by rewrite Hrun.
Qed.

Lemma level_of_node (graph : Graph.t) (n : string) (l : nat) :
  level_of graph n l -> dict_mem (Graph.nodes graph) n = true.
Proof. intros H. apply dict_mem_get. destruct H; eauto. Qed.

Lemma level_loop_sound (graph : Graph.t) (fuel : nat) :
  forall node_ids levels levels',
    level_loop fuel graph node_ids levels = Some levels' ->
    memo_ok graph levels ->
    memo_ok graph levels' /\ memo_le levels levels' /\
    forall n, In n node_ids -> dict_mem (Graph.nodes graph) n = true ->
              is_Some (levels' !! n).
Proof.
  induction node_ids as [|node_id rest IH]; intros levels levels' Hrun Hok.
  - injection Hrun as <-. split; [done |]. split; [apply memo_le_refl | done].
  - simpl in Hrun.
    destruct (get_level fuel graph levels node_id) as [[levels1 l]|] eqn:Hcall; [| done].
    destruct (get_level_sound graph fuel _ _ _ _ Hcall Hok) as (Hok1 & Hle1 & Hl).
    destruct (IH _ _ Hrun Hok1) as (Hok' & Hle' & Hall).
    split; [done |]. split; [by eapply memo_le_trans |].
    intros n [<- | Hn] Hmem; [| by apply Hall].
    destruct (Hl Hmem) as [Hlook _]. exists l. by apply Hle'.
Qed.

Lemma level_loop_total (graph : Graph.t) (fuel : nat) :
  forall node_ids levels,
    (forall n, In n node_ids -> exists l, level_of graph n l /\ (l < fuel)%nat) ->
    memo_ok graph levels ->
    is_Some (level_loop fuel graph node_ids levels).
Proof.
  induction node_ids as [|node_id rest IH]; intros levels Hids Hok; [done |].
  simpl. destruct (Hids node_id) as (l & Hl & Hfuel); [by left |].
  destruct (get_level_total graph l node_id Hl fuel levels Hfuel Hok)
    as [[levels1 l1] Hcall].
  rewrite Hcall. destruct (get_level_sound graph fuel _ _ _ _ Hcall Hok) as (Hok1 & _).
  apply IH; [| done]. intros n Hn. apply Hids. by right.
Qed.

(** In an acyclic graph every node has a level. *)
Lemma acyclic_level (graph : Graph.t) :
  acyclic graph ->
  forall n, dict_mem (Graph.nodes graph) n = true -> exists l, level_of graph n l.
Proof.
  intros Hwf n. induction (Hwf n) as [n _ IH]. intros Hmem.
  apply dict_mem_get in Hmem as [node Hnode].
  destruct (existing_premises graph node) as [|p ps] eqn:He.
  { exists 0%nat. by eapply level_of_root. }
  destruct (Forall2_pointwise (level_of graph) (existing_premises graph node))
    as [ls Hls].
  { intros q Hq. apply IH; [by exists node |].
    unfold existing_premises in Hq. by apply filter_In in Hq as [_ ?]. }
  exists (max_list ls + 1)%nat. eapply level_of_step; [done | | done].
  by rewrite He.
Qed.

(** An acyclic premise relation has no cycle: no node is, over one or
    more steps, a premise of itself. *)
Lemma acyclic_no_cycle (graph : Graph.t) :
  acyclic graph -> forall n, ~ clos_trans string (premise_of graph) n n.
Proof.
  intros Hwf n Hcycle.
  pose proof (wf_clos_trans _ _ Hwf n) as Hacc.
  induction Hacc as [n _ IH]. by apply (IH n).
Qed.

(** A node that has a level is no part of an infinite chain of premises. *)
Lemma level_of_acc (graph : Graph.t) :
  forall (l : nat) (n : string), level_of graph n l -> Acc (premise_of graph) n.
Proof.
  induction l as [l IH] using lt_wf_ind. intros n Hl.
  constructor. intros p (node & Hnode & Hin).
  inversion Hl as [? node' Hn' He | ? node' ls Hn' He Hls]; subst;
    rewrite Hnode in Hn'; injection Hn' as <-.
  - rewrite He in Hin. done.
  - destruct (Forall2_In_l _ _ _ _ Hls Hin) as (lp & Hlp & Hp_level).
    apply (IH lp); [| done]. apply max_list_ge in Hlp. lia.
Qed.

Lemma level_bound (graph : Graph.t) (ks : list string) :
  (forall k, In k ks -> exists l, level_of graph k l) ->
  exists b : nat, forall k, In k ks -> exists l, level_of graph k l /\ (l < b)%nat.
Proof.
  induction ks as [|k ks IH]; intros H; [by exists 0%nat |].
  destruct (H k) as [l Hl]; [by left |].
  destruct IH as [b Hb]; [intros k' Hk'; apply H; by right |].
  exists (Nat.max b (l + 1)). intros k' [<- | Hk'].
  - exists l. split; [done | lia].
  - destruct (Hb k' Hk') as (l' & Hl' & Hlt). exists l'. split; [done | lia].
Qed.

(** What [calculate_node_levels] returns, when it returns: the level of
    every node of the graph, and nothing else. *)
Lemma calculate_node_levels_sound (graph : Graph.t) (fuel : nat)
    (levels : gmap string nat) :
  calculate_node_levels fuel graph = Some levels ->
  forall k l, levels !! k = Some l <-> level_of graph k l.
Proof.
  intros Hrun. unfold calculate_node_levels in Hrun.
  destruct (level_loop_sound graph fuel _ _ _ Hrun) as (Hok & _ & Hall); [done |].
  intros k l. split; [apply Hok |]. intros Hl.
  pose proof (level_of_node _ _ _ Hl) as Hmem.
  destruct (Hall k) as [l' Hl']; [| done |].
  { apply dict_mem_get in Hmem as [v Hv]. by eapply dict_get_keys. }
  by rewrite (level_of_fun graph l k l' Hl (Hok _ _ Hl')).
Qed.

Lemma calculate_node_levels_acyclic (graph : Graph.t) (fuel : nat)
    (levels : gmap string nat) :
  calculate_node_levels fuel graph = Some levels -> acyclic graph.
Proof.
  intros Hrun n.
  destruct (dict_mem (Graph.nodes graph) n) eqn:Hmem.
  - unfold calculate_node_levels in Hrun.
    destruct (level_loop_sound graph fuel _ _ _ Hrun) as (Hok & _ & Hall); [done |].
    destruct (Hall n) as [l Hl]; [| done |].
    { apply dict_mem_get in Hmem as [v Hv]. by eapply dict_get_keys. }
    eapply level_of_acc. by apply Hok.
  - constructor. intros p (node & Hnode & _).
    assert (dict_mem (Graph.nodes graph) n = true) by (apply dict_mem_get; eauto).
    congruence.
Qed.

Lemma calculate_node_levels_total (graph : Graph.t) :
  acyclic graph ->
  exists depth : nat, forall fuel, (depth <= fuel)%nat ->
    is_Some (calculate_node_levels fuel graph).
Proof.
  intros Hwf.
  destruct (level_bound graph (dict_keys (Graph.nodes graph))) as [b Hb].
  { intros k Hk. apply acyclic_level; [done |].
    apply dict_mem_get. by apply dict_keys_get. }
  exists b. intros fuel Hfuel. apply level_loop_total; [| done].
  intros n Hn. destruct (Hb n Hn) as (l & Hl & Hlt). exists l. split; [done | lia].
Qed.

Lemma levels_unique (graph : Graph.t) (m1 m2 : gmap string nat) :
  (forall k l, m1 !! k = Some l <-> level_of graph k l) ->
  (forall k l, m2 !! k = Some l <-> level_of graph k l) ->
  m1 = m2.
Proof.
  intros H1 H2. apply map_eq. intros k.
  destruct (m1 !! k) as [l|] eqn:E1.
  - symmetry. by apply H2, H1.
  - destruct (m2 !! k) as [l|] eqn:E2; [| done].
    apply H2, H1 in E2. congruence.
Qed.

Lemma levels_of_premises (graph : Graph.t) (levels : gmap string nat)
    (ps : list string) (ls : list nat) :
  (forall k l, levels !! k = Some l <-> level_of graph k l) ->
  Forall2 (level_of graph) ps ls ->
  map (fun p => default 0%nat (levels !! p)) ps = ls.
Proof.
  intros Hchar. induction 1 as [|q lq qs ls Hq Hqs IH]; [done |].
  simpl. rewrite IH. by rewrite (proj2 (Hchar q lq) Hq).
Qed.

(** A table that the calculator returns at one call depth it returns
    at every depth greater than the levels in the table. *)
Lemma calculate_node_levels_at_depth (graph : Graph.t) (fuel0 fuel : nat)
    (levels : gmap string nat) :
  calculate_node_levels fuel0 graph = Some levels ->
  map_Forall (fun _ l => (l < fuel)%nat) levels ->
  calculate_node_levels fuel graph = Some levels.
Proof.
  intros Hrun Hbound.
  pose proof (calculate_node_levels_sound graph fuel0 levels Hrun) as Hchar.
  assert (Hsome : is_Some (calculate_node_levels fuel graph)).
  { unfold calculate_node_levels in *. apply level_loop_total; [| done].
    intros n Hn.
    destruct (level_loop_sound graph fuel0 _ _ _ Hrun) as (_ & _ & Hall); [done |].
    destruct (Hall n Hn) as [l Hl]; [apply dict_mem_get; by apply dict_keys_get |].
    exists l. split; [by apply Hchar | by apply (Hbound n)]. }
  destruct Hsome as [levels' Hrun']. rewrite Hrun'. f_equal.
  apply (levels_unique graph); [| done].
  by apply (calculate_node_levels_sound graph fuel).
Qed.

(** C1. On a graph with an acyclic premise relation the calculator
    returns, at every call depth from some depth on, one and the same
    table; in it a node with no premise that is a node of the graph has
    level 0 and any other node has 1 + the greatest level of its
    premises that are nodes of the graph. On the chain A, B, C the table
    is A:0, B:1, C:2; a node whose only premise is no node of the graph
    has level 0. *)
Theorem levels_follow_contract :
  (forall graph : Graph.t,
     acyclic graph ->
     exists (depth : nat) (levels : gmap string nat),
       (forall fuel, (depth <= fuel)%nat ->
                     calculate_node_levels fuel graph = Some levels) /\
       forall n node,
         dict_get (Graph.nodes graph) n = Some node ->
         levels !! n
         = Some (level_by_contract graph
                   (fun p => default 0%nat (levels !! p)) node)) /\
  (forall fuel, (3 <= fuel)%nat ->
     calculate_node_levels fuel chain_graph
     = Some {[ "A" := 0%nat; "B" := 1%nat; "C" := 2%nat ]}) /\
  (forall fuel, (1 <= fuel)%nat ->
     calculate_node_levels fuel ghost_graph = Some {[ "D" := 0%nat ]}).
Proof.
  split; [| split].
  - intros graph Hwf.
    destruct (calculate_node_levels_total graph Hwf) as [depth Hdepth].
    destruct (Hdepth depth) as [levels Hrun]; [lia |].
    pose proof (calculate_node_levels_sound graph depth levels Hrun) as Hchar.
    exists depth, levels. split.
    + intros fuel Hfuel. destruct (Hdepth fuel Hfuel) as [levels' Hrun'].
      rewrite Hrun'. f_equal.
      apply (levels_unique graph); [| done].
      by apply (calculate_node_levels_sound graph fuel).
    + intros n node Hnode.
      destruct (acyclic_level graph Hwf n) as [l Hl].
      { apply dict_mem_get. eauto. }
      rewrite (proj2 (Hchar n l) Hl). f_equal. unfold level_by_contract.
      inversion Hl as [? node' Hn' He | ? node' ls Hn' He Hls]; subst;
        rewrite Hnode in Hn'; injection Hn' as <-.
      * by rewrite He.
      * destruct (existing_premises graph node) as [|p ps] eqn:Hps; [done |].
        rewrite <- Hps in *. clear Hps.
        rewrite (levels_of_premises graph levels _ _ Hchar Hls). lia.
  - intros fuel Hfuel. apply (calculate_node_levels_at_depth chain_graph 3).
    + vm_compute. reflexivity.
    + assert (H : map_Forall (fun (_ : string) l => (l < 3)%nat)
                    ({[ "A" := 0%nat; "B" := 1%nat; "C" := 2%nat ]} : gmap string nat))
        by (apply (bool_decide_unpack _); vm_compute; exact I).
      intros k l Hl. specialize (H k l Hl). simpl in H. lia.
  - intros fuel Hfuel. apply (calculate_node_levels_at_depth ghost_graph 1).
    + vm_compute. reflexivity.
    + assert (H : map_Forall (fun (_ : string) l => (l < 1)%nat)
                    ({[ "D" := 0%nat ]} : gmap string nat))
        by (apply (bool_decide_unpack _); vm_compute; exact I).
      intros k l Hl. specialize (H k l Hl). simpl in H. lia.
Qed.

Lemma levels_follow_contract_witness :
  exists (depth : nat) (levels : gmap string nat),
    (forall fuel, (depth <= fuel)%nat ->
                  calculate_node_levels fuel chain_graph = Some levels) /\
    forall n node,
      dict_get (Graph.nodes chain_graph) n = Some node ->
      levels !! n
      = Some (level_by_contract chain_graph
                (fun p => default 0%nat (levels !! p)) node).
Proof.
  apply (proj1 levels_follow_contract).
  apply (calculate_node_levels_acyclic chain_graph 3
           {[ "A" := 0%nat; "B" := 1%nat; "C" := 2%nat ]}).
  vm_compute. reflexivity.
Defined.

(** C2, as the code has it. The calculator returns at some call depth
    exactly when the premise relation of the graph is acyclic, premises
    that are no nodes of the graph notwithstanding, and the table it
    returns has a level for every node. *)
Theorem levels_terminate_iff_acyclic (graph : Graph.t) :
  ((exists fuel levels, calculate_node_levels fuel graph = Some levels)
   <-> acyclic graph) /\
  (forall fuel levels,
     calculate_node_levels fuel graph = Some levels ->
     forall n, In n (dict_keys (Graph.nodes graph)) -> is_Some (levels !! n)).
Proof.
  split; [split |].
  - intros (fuel & levels & Hrun). by eapply calculate_node_levels_acyclic.
  - intros Hwf. destruct (calculate_node_levels_total graph Hwf) as [depth Hdepth].
    destruct (Hdepth depth) as [levels Hrun]; [lia |]. by exists depth, levels.
  - intros fuel levels Hrun n Hn. unfold calculate_node_levels in Hrun.
    destruct (level_loop_sound graph fuel _ _ _ Hrun) as (_ & _ & Hall); [done |].
    apply Hall; [done |]. apply dict_mem_get. by apply dict_keys_get.
Qed.

Lemma levels_terminate_iff_acyclic_witness :
  acyclic ghost_graph /\
  forall n, In n (dict_keys (Graph.nodes ghost_graph)) ->
            is_Some (({[ "D" := 0%nat ]} : gmap string nat) !! n).
Proof.
  destruct (levels_terminate_iff_acyclic ghost_graph) as [Hiff Hall].
  split.
  - apply Hiff. exists 1%nat, {[ "D" := 0%nat ]}. vm_compute. reflexivity.
  - apply (Hall 1%nat). vm_compute. reflexivity.
Defined.

Lemma cyclic_graph_not_acyclic : ~ acyclic cyclic_graph.
Proof.
  intros Hwf.
  assert (H : forall n, Acc (premise_of cyclic_graph) n -> n = "X" \/ n = "Y" -> False).
  { induction 1 as [n _ IH]. intros [-> | ->].
    - apply (IH "Y"); [| by right].
      exists (snd (plain_node "X" ["Y"])). split; [reflexivity | by left].
    - apply (IH "X"); [| by left].
      exists (snd (plain_node "Y" ["X"])). split; [reflexivity | by left]. }
  apply (H "X"); [apply Hwf | by left].
Qed.

(** The claim as the specification words it fails on the cycle of its
    own example, X with premise Y and Y with premise X: whatever call
    depth is allowed, the calculator exceeds it and returns nothing. *)
Lemma cyclic_graph_never_returns :
  ~ exists fuel levels, calculate_node_levels fuel cyclic_graph = Some levels.
Proof.
  intros (fuel & levels & Hrun).
  apply cyclic_graph_not_acyclic. by eapply calculate_node_levels_acyclic.
Qed.

Example cyclic_graph_depth_1000 : calculate_node_levels 1000 cyclic_graph = None.
Proof. vm_compute. reflexivity. Qed.

(** ** Assembly *)

Lemma get_smart_title_some (node_content : string) (mwpl max_lines : Z) :
  1 <= mwpl -> 1 <= max_lines ->
  is_Some (get_smart_title node_content mwpl max_lines).
Proof.
  intros Hm Hl.
  destruct (title_lines node_content mwpl max_lines Hm Hl) as (wls & k & -> & _).
  done.
Qed.

Lemma add_reference_details_some (references : list (string * Reference.t))
    (ref_ids : list string) :
  forall tooltip, is_Some (add_reference_details references ref_ids tooltip).
Proof.
  induction ref_ids as [|ref_id rest IH]; intros tooltip; [done |].
  simpl. destruct (dict_get references ref_id) as [ref|]; [| apply IH].
  destruct (get_smart_title_some (Reference.statement ref) 10 1) as [s ->]; [lia.. |].
  simpl. apply IH.
Qed.

(** A round of the node loop raises nothing, and its descriptor carries
    the key of the node, the colours of [node_colors] and the level of
    the table, 0 when the table has none. *)
Lemma describe_node_spec (graph : Graph.t) (node_levels : gmap string nat)
    (root_nodes : gset string) (node_size : Z) (node_id : string) (node : Node.t) :
  exists d,
    describe_node graph node_levels root_nodes node_size node_id node = Some d /\
    Net.n_id d = node_id /\
    (Net.color d, Net.border d) = node_colors root_nodes node_id node /\
    Net.level d = default 0%nat (node_levels !! node_id) /\
    Net.size d = node_size + len (Node.references node) * 100.
Proof.
  unfold describe_node.
  destruct (node_colors root_nodes node_id node) as [color border_color].
  destruct (get_smart_title_some (Node.conclusion node) 8 2) as [c1 ->]; [lia.. |].
  destruct (get_smart_title_some (Node.conclusion node) 12 8) as [c2 ->]; [lia.. |].
  destruct (get_smart_title_some (Node.justification node) 12 8) as [j ->]; [lia.. |].
  cbn [mbind option_bind].
  set (tooltip := "ID: " +:+ _).
  destruct (Node.references node) as [|r rs] eqn:Hrefs.
  - cbn [mbind option_bind]. eexists. split; [reflexivity |]. by simpl.
  - destruct (add_reference_details_some (Graph.references graph) (r :: rs)
                (tooltip +:+ nl +:+ nl +:+ "--- References ("
                 +:+ pretty (length (r :: rs)) +:+ ") ---")) as [t ->].
    cbn [mbind option_bind]. eexists. split; [reflexivity |]. by simpl.
Qed.

Lemma has_node_add (net : Net.t) (d : Net.node) (n : string) :
  Net.has_node (Net.add_node net d) n
  = Net.has_node net n || String.eqb (Net.n_id d) n.
Proof.
  unfold Net.add_node. destruct (Net.has_node net (Net.n_id d)) eqn:Hd.
  - destruct (String.eqb (Net.n_id d) n) eqn:E; [| by rewrite orb_false_r].
    apply String.eqb_eq in E. subst n. by rewrite Hd.
  - unfold Net.has_node. simpl. rewrite existsb_app. simpl. by rewrite orb_false_r.
Qed.

Lemma add_nodes_total (graph : Graph.t) (node_levels : gmap string nat)
    (root_nodes : gset string) (node_size : Z) :
  forall (items : list (string * Node.t)) (net : Net.t),
  exists net',
    add_nodes graph node_levels root_nodes node_size items net = Some net' /\
    Net.edges net' = Net.edges net /\
    (forall n, Net.has_node net n = true -> Net.has_node net' n = true) /\
    (forall n, In n (dict_keys items) -> Net.has_node net' n = true).
Proof.
  induction items as [|[node_id node] items IH]; intros net.
  { exists net. by repeat split. }
  simpl.
  destruct (describe_node_spec graph node_levels root_nodes node_size node_id node)
    as (d & -> & Hid & _).
  cbn [mbind option_bind].
  destruct (IH (Net.add_node net d)) as (net' & -> & Hedges & Hold & Hnew).
  exists net'. split; [done |]. split.
  { rewrite Hedges. unfold Net.add_node. by destruct (Net.has_node net _). }
  split.
  - intros n Hn. apply Hold. rewrite has_node_add, Hn. done.
  - intros n [<- | Hn]; [| by apply Hnew].
    apply Hold. rewrite has_node_add, Hid, String.eqb_refl. apply orb_true_r.
Qed.

Lemma add_premise_edges_total (graph : Graph.t) (node_id : string) :
  forall (premise_ids : list string) (net : Net.t),
    Net.has_node net node_id = true ->
    (forall p, dict_mem (Graph.nodes graph) p = true -> Net.has_node net p = true) ->
    add_premise_edges graph node_id premise_ids net
    = Some (Net.mk (Net.nodes net)
              (Net.edges net
               ++ map (fun p => (p, node_id))
                      (List.filter (dict_mem (Graph.nodes graph)) premise_ids))).
Proof.
  induction premise_ids as [|p ps IH]; intros net Hto Hfrom.
  { simpl. rewrite app_nil_r. by destruct net. }
  simpl. destruct (dict_mem (Graph.nodes graph) p) eqn:Hmem; [| by apply IH].
  unfold Net.add_edge. rewrite (Hfrom p Hmem), Hto. cbn [andb mbind option_bind].
  rewrite IH; [| done | done]. simpl. by rewrite <- app_assoc.
Qed.

Lemma add_edges_total (graph : Graph.t) :
  forall (items : list (string * Node.t)) (net : Net.t),
    (forall n, In n (dict_keys items) -> Net.has_node net n = true) ->
    (forall p, dict_mem (Graph.nodes graph) p = true -> Net.has_node net p = true) ->
    add_edges graph items net
    = Some (Net.mk (Net.nodes net)
              (Net.edges net ++ flat_map (premise_edges graph) items)).
Proof.
  induction items as [|[node_id node] items IH]; intros net Hto Hfrom.
  { simpl. rewrite app_nil_r. by destruct net. }
  simpl. rewrite add_premise_edges_total; [| apply Hto; by left | done].
  cbn [mbind option_bind]. rewrite IH; [| intros n Hn; apply Hto; by right | done].
  simpl. by rewrite <- app_assoc.
Qed.

(** The assembly raises nothing; its edges are those of the premises
    that are nodes, node by node. *)
Lemma assemble_network_edges (graph : Graph.t) (node_levels : gmap string nat)
    (node_size : Z) :
  exists net,
    assemble_network graph node_levels node_size = Some net /\
    Net.edges net = flat_map (premise_edges graph) (Graph.nodes graph).
Proof.
  unfold assemble_network.
  destruct (add_nodes_total graph node_levels (root_nodes_of graph) node_size
              (Graph.nodes graph) Net.empty) as (net1 & -> & Hedges & _ & Hnodes).
  cbn [mbind option_bind]. rewrite add_edges_total; [| done |].
  - eexists. split; [reflexivity |]. simpl. by rewrite Hedges.
  - intros p Hp. apply Hnodes. apply dict_mem_get in Hp as [v Hv].
    by eapply dict_get_keys.
Qed.

(** [create_pyvis_network] computes the levels first: it returns when
    the level calculation does. *)
Lemma create_pyvis_network_returns (graph : Graph.t) (node_size : Z) (fuel : nat) :
  is_Some (create_pyvis_network fuel graph node_size)
  <-> is_Some (calculate_node_levels fuel graph).
Proof.
  unfold create_pyvis_network.
  destruct (calculate_node_levels fuel graph) as [levels|]; simpl.
  - destruct (assemble_network_edges graph levels node_size) as (net & -> & _).
    done.
  - split; by intros [? ?].
Qed.

(** C8. The assembly raises nothing, and for a premise [p] of a node [n]
    of the graph it has the edge from [p] to [n] exactly when [p] is a
    key of the node mapping; no edge starts at an identifier that is no
    key. *)
Theorem edges_for_existing_premises (graph : Graph.t)
    (node_levels : gmap string nat) (node_size : Z) :
  exists net,
    assemble_network graph node_levels node_size = Some net /\
    (forall n node p,
       In (n, node) (Graph.nodes graph) -> In p (Node.premises node) ->
       (In (p, n) (Net.edges net) <-> dict_mem (Graph.nodes graph) p = true)) /\
    (forall p n, In (p, n) (Net.edges net) ->
                 dict_mem (Graph.nodes graph) p = true).
Proof.
  destruct (assemble_network_edges graph node_levels node_size) as (net & Hrun & Hedges).
  exists net. split; [done |].
  assert (Hsrc : forall p n, In (p, n) (Net.edges net) ->
                             dict_mem (Graph.nodes graph) p = true).
  { intros p n. rewrite Hedges, in_flat_map. intros ([n' node'] & _ & Hin).
    unfold premise_edges, existing_premises in Hin. apply in_map_iff in Hin.
    destruct Hin as (q & [= <- _] & Hq). by apply filter_In in Hq as [_ ?]. }
  split; [| done].
  intros n node p Hnode Hp. split; [apply Hsrc |].
  intros Hmem. rewrite Hedges, in_flat_map. exists (n, node). split; [done |].
  unfold premise_edges, existing_premises. apply in_map_iff. exists p.
  split; [done |]. by apply filter_In.
Qed.

Lemma dict_values_unique {V} (d : list (string * V)) (k : string) (v v' : V) :
  List.NoDup (dict_keys d) -> In (k, v) d -> In (k, v') d -> v = v'.
Proof.
  induction d as [|[k0 v0] d IH]; [done |]. simpl.
  intros Hnd. inversion Hnd as [|? ? Hk0 Hd]; subst.
  assert (Hkey : forall w, In (k0, w) d -> False).
  { intros w Hw. apply Hk0. unfold dict_keys. apply in_map_iff. by exists (k0, w). }
  intros [[= -> ->] | H1] [[= <-] | H2]; try done.
  - by destruct (Hkey _ H2).
  - subst. by destruct (Hkey _ H1).
  - by apply IH.
Qed.

(** The set of root nodes: the keys of the nodes without premises. *)
Lemma root_nodes_spec (graph : Graph.t) (n : string) (node : Node.t) :
  List.NoDup (dict_keys (Graph.nodes graph)) ->
  In (n, node) (Graph.nodes graph) ->
  (n ∈ root_nodes_of graph <-> Node.premises node = []).
Proof.
  intros Hnd Hin. unfold root_nodes_of.
  rewrite elem_of_list_to_set, list_elem_of_In, in_map_iff. split.
  - intros ([n' node'] & Hfst & Hf). simpl in Hfst. subst n'.
    apply filter_In in Hf as [Hin' Hp]. simpl in Hp.
    rewrite (dict_values_unique _ _ _ _ Hnd Hin Hin').
    by destruct (Node.premises node').
  - intros Hp. exists (n, node). split; [done |].
    apply filter_In. split; [done |]. simpl. by rewrite Hp.
Qed.

Lemma node_colors_by_contract (graph : Graph.t) (n : string) (node : Node.t) :
  List.NoDup (dict_keys (Graph.nodes graph)) ->
  In (n, node) (Graph.nodes graph) ->
  node_colors (root_nodes_of graph) n node
  = category_colors (category_by_contract node).
Proof.
  intros Hnd Hin. unfold node_colors, category_by_contract.
  destruct (Node.is_refutation node); [done |].
  pose proof (root_nodes_spec graph n node Hnd Hin) as Hroot.
  destruct (Node.premises node) as [|p ps].
  - rewrite bool_decide_eq_true_2; [done |]. by apply Hroot.
  - rewrite bool_decide_eq_false_2; [done |]. intros H. by apply Hroot in H.
Qed.

Lemma add_nodes_nodup (graph : Graph.t) (node_levels : gmap string nat)
    (root_nodes : gset string) (node_size : Z) :
  forall (items : list (string * Node.t)) (net : Net.t),
    List.NoDup (dict_keys items) ->
    (forall n, In n (dict_keys items) -> Net.has_node net n = false) ->
    exists ds,
      add_nodes graph node_levels root_nodes node_size items net
      = Some (Net.mk (Net.nodes net ++ ds) (Net.edges net)) /\
      Forall2 (fun item d =>
                 describe_node graph node_levels root_nodes node_size
                               (fst item) (snd item) = Some d)
              items ds.
Proof.
  induction items as [|[node_id node] items IH]; intros net Hnd Hfresh.
  { exists []. simpl. rewrite app_nil_r. split; [by destruct net | constructor]. }
  inversion Hnd as [|? ? Hhd Htl]; subst. simpl.
  destruct (describe_node_spec graph node_levels root_nodes node_size node_id node)
    as (d & Hd & Hid & _).
  rewrite Hd. cbn [mbind option_bind].
  assert (Hadd : Net.add_node net d = Net.mk (Net.nodes net ++ [d]) (Net.edges net)).
  { unfold Net.add_node. rewrite Hid, Hfresh; [done | by left]. }
  destruct (IH (Net.add_node net d) Htl) as (ds & -> & Hds).
  { intros n Hn. rewrite has_node_add, Hid, Hfresh by (by right).
    simpl. apply String.eqb_neq. intros ->. done. }
  exists (d :: ds). rewrite Hadd. simpl. rewrite <- app_assoc.
  split; [done |]. by constructor.
Qed.

Lemma descriptors_by_contract (graph : Graph.t) (node_levels : gmap string nat)
    (node_size : Z) (items : list (string * Node.t)) (ds : list Net.node) :
  List.NoDup (dict_keys (Graph.nodes graph)) ->
  (forall item, In item items -> In item (Graph.nodes graph)) ->
  Forall2 (fun item d =>
             describe_node graph node_levels (root_nodes_of graph) node_size
                           (fst item) (snd item) = Some d)
          items ds ->
  Forall2 (fun item d =>
             Net.n_id d = fst item /\
             (Net.color d, Net.border d)
             = category_colors (category_by_contract (snd item)))
          items ds.
Proof.
  intros Hnd Hsub Hds.
  induction Hds as [|[n node] d rest ds Hd Hrest IH]; [constructor |].
  constructor; [| apply IH; intros item Hitem; apply Hsub; by right].
  simpl in *.
  destruct (describe_node_spec graph node_levels (root_nodes_of graph)
              node_size n node) as (d' & Hd' & Hid & Hcol & _).
  rewrite Hd in Hd'. injection Hd' as <-. split; [done |].
  rewrite Hcol. apply node_colors_by_contract; [done |]. apply Hsub. by left.
Qed.

(** C9. On a graph whose node mapping has distinct keys the assembly
    raises nothing and gives every node, in order, a descriptor in the
    colours of its category: refutation when the flag is set, root when
    it is not set and the node has no premises, normal otherwise. A node
    is in the set of roots exactly when it has no premises, refutation
    or not. *)
Theorem category_by_refutation_then_root (graph : Graph.t)
    (node_levels : gmap string nat) (node_size : Z) :
  List.NoDup (dict_keys (Graph.nodes graph)) ->
  exists net,
    assemble_network graph node_levels node_size = Some net /\
    Forall2 (fun item d =>
               Net.n_id d = fst item /\
               (Net.color d, Net.border d)
               = category_colors (category_by_contract (snd item)))
            (Graph.nodes graph) (Net.nodes net) /\
    forall n node, In (n, node) (Graph.nodes graph) ->
                   (n ∈ root_nodes_of graph <-> Node.premises node = []).
Proof.
  intros Hnd. unfold assemble_network.
  destruct (add_nodes_nodup graph node_levels (root_nodes_of graph) node_size
              (Graph.nodes graph) Net.empty Hnd) as (ds & Hrun & Hds); [done |].
  destruct (add_nodes_total graph node_levels (root_nodes_of graph) node_size
              (Graph.nodes graph) Net.empty) as (net1 & Hrun1 & _ & _ & Hnodes).
  rewrite Hrun in *. injection Hrun1 as <-. cbn [mbind option_bind].
  rewrite add_edges_total; [| done |].
  2:{ intros p Hp. apply Hnodes. apply dict_mem_get in Hp as [v Hv].
      by eapply dict_get_keys. }
  eexists. split; [reflexivity |]. simpl. split.
  - by apply (descriptors_by_contract graph node_levels node_size).
  - intros n node Hin. by apply root_nodes_spec.
Qed.

(** ** Examples *)




(** A record that decodes to something other than an object aborts the
    load: [AttributeError] is not among the exceptions that are caught. *)
Example load_aborts_on_list :
  load_graph_from_jsonl demo_loads demo_init ["merge n1"; "a list"; "finish n1 n2"]
  = inl AttributeError.
Proof. vm_compute. reflexivity. Qed.




(** A full-snapshot event whose non-empty graph object the constructor
    rejects with [TypeError] is skipped by the [except] clause: the scan
    goes on and the result is the graph of the merge after it. *)
Example rejected_snapshot_is_skipped :
  load_graph_from_jsonl demo_loads_bad demo_init_strict
    ["merge n1 n2"; "finish with a graph without nodes"; "merge n1"]
  = inr (Some graph_n1, [TypeError]).
Proof. vm_compute. reflexivity. Qed.

Example load_aborts_on_number :
  load_graph_from_jsonl demo_loads_bad demo_init ["merge n1"; "merge n1 n2"; "a number"]
  = inl AttributeError.
Proof. vm_compute. reflexivity. Qed.

(** The end-to-end example of section 8: two nodes, levels 0 and 1, one
    edge. *)
Example end_to_end :
  load_graph_from_jsonl demo_loads demo_init ["merge n1"; "finish n1 n2"]
  = inr (Some graph_n1_n2, []) /\
  calculate_node_levels 2 graph_n1_n2 = Some {[ "n1" := 0%nat; "n2" := 1%nat ]} /\
  Net.edges <$> create_pyvis_network 2 graph_n1_n2 25 = Some [("n1", "n2")].
Proof. vm_compute. repeat split. Qed.

Lemma category_by_refutation_then_root_witness :
  exists net,
    assemble_network demo_graph ∅ 25 = Some net /\
    Forall2 (fun item d =>
               Net.n_id d = fst item /\
               (Net.color d, Net.border d)
               = category_colors (category_by_contract (snd item)))
            (Graph.nodes demo_graph) (Net.nodes net) /\
    forall n node, In (n, node) (Graph.nodes demo_graph) ->
                   (n ∈ root_nodes_of demo_graph <-> Node.premises node = []).
Proof.
  apply category_by_refutation_then_root.
  simpl. repeat constructor; simpl; intuition discriminate.
Defined.

Example demo_graph_colors :
  map Net.color <$> (Net.nodes <$> assemble_network demo_graph ∅ 25)
  = Some [root_color; normal_color; refutation_color; refutation_color].
Proof. vm_compute. reflexivity. Qed.

Example demo_graph_edges :
  Net.edges <$> assemble_network demo_graph ∅ 25
  = Some [("n1", "n2"); ("n2", "n4")].
Proof. vm_compute. reflexivity. Qed.

(** * Further properties *)

(** ** The formatter at its edges *)

Lemma py_range_nonpositive (n : Z) : n <= 0 -> py_range n = [].
Proof. intros H. unfold py_range. by replace (Z.to_nat n) with 0%nat by lia. Qed.

(** The outer loop only appends lines, and its first round appends one
    when a word is left. *)
Lemma layout_lines_grows (words : list string) (mwpl max_lines : Z) :
  forall (line_nums : list Z) (lines : list string) (idx : Z),
  exists more,
    fst (layout_lines words mwpl max_lines line_nums lines idx) = lines ++ more /\
    (line_nums <> [] -> idx < len words -> more <> []).
Proof.
  induction line_nums as [|ln rest IH]; intros lines idx.
  { exists []. simpl. by rewrite app_nil_r. }
  simpl. destruct (len words <=? idx) eqn:E.
  { apply Z.leb_le in E. exists []. simpl. rewrite app_nil_r. split; [done | lia]. }
  destruct (layout_line words mwpl max_lines ln idx) as [cur idx'].
  destruct (IH (lines ++ [join " " cur]) idx') as (more & -> & _).
  exists (join " " cur :: more). by rewrite <- app_assoc.
Qed.

(** X1. [get_smart_title] raises [IndexError] exactly when [max_lines]
    is not positive and the text has at least one word and more words
    than [max_words_per_line]. *)
Theorem title_index_error (node_content : string)
    (max_words_per_line max_lines : Z) :
  get_smart_title node_content max_words_per_line max_lines = None
  <-> max_lines <= 0 /\ 0 < len (split node_content)
      /\ max_words_per_line < len (split node_content).
Proof.
  unfold get_smart_title. fold (normalize node_content). rewrite words_of_title.
  set (words := split node_content).
  destruct (len words <=? max_words_per_line) eqn:E.
  { apply Z.leb_le in E. split; [done | lia]. }
  apply Z.leb_gt in E.
  destruct (Z_le_gt_dec max_lines 0) as [Hml | Hml].
  - rewrite py_range_nonpositive by done. simpl.
    destruct (0 <? len words) eqn:E0; simpl.
    + apply Z.ltb_lt in E0. by split.
    + apply Z.ltb_ge in E0. split; [done | lia].
  - split; [| lia]. intros Hnone. exfalso.
    destruct (Z_le_gt_dec (len words) 0) as [Hw | Hw].
    + assert (Hrun : layout_lines words max_words_per_line max_lines
                       (py_range max_lines) [] 0 = ([], 0)).
      { destruct (py_range max_lines); [done |]. simpl.
        by replace (len words <=? 0) with true by (symmetry; apply Z.leb_le; lia). }
      rewrite Hrun in Hnone.
      by replace (0 <? len words) with false in Hnone
        by (symmetry; apply Z.ltb_ge; lia).
    + destruct (layout_lines_grows words max_words_per_line max_lines
                  (py_range max_lines) [] 0) as (more & Hfst & Hmore).
      destruct (layout_lines _ _ _ _ _ _) as [lines idx]. simpl in Hfst. subst lines.
      destruct (idx <? len words) eqn:Et; [| done].
      assert (Hne : more <> []).
      { apply Hmore; [| lia]. unfold py_range.
        replace (Z.to_nat max_lines) with (S (Z.to_nat (max_lines - 1))) by lia.
        done. }
      destruct (append_to_last_nonempty more "..." Hne) as (l0 & x & _ & Happ).
      by rewrite Happ in Hnone.
Qed.

(** X2. The title depends on the text only through its sequence of
    words: normalising loses no word, and two texts with the same words
    get the same title, whatever whitespace separates or surrounds the
    words. *)
Theorem title_depends_on_words (node_content other : string)
    (max_words_per_line max_lines : Z) :
  split node_content = split other ->
  split (normalize node_content) = split node_content /\
  get_smart_title node_content max_words_per_line max_lines
  = get_smart_title other max_words_per_line max_lines.
Proof.
  intros H. split; [apply words_of_title |].
  unfold get_smart_title. by rewrite !split_strip, H.
Qed.

Lemma title_depends_on_words_witness :
  split (normalize "  one   two three ") = split "  one   two three " /\
  get_smart_title "  one   two three " 2 2 = get_smart_title "one two  three" 2 2.
Proof. apply title_depends_on_words. vm_compute. reflexivity. Defined.

Lemma find_natural_break_bounds
    (current_words all_words : list string) (next_idx : Z) :
  exists j : nat,
    find_natural_break current_words all_words next_idx = firstn j current_words /\
    (length current_words - 2 <= j <= length current_words)%nat /\
    (current_words <> [] -> (1 <= j)%nat).
Proof.
  unfold find_natural_break.
  destruct current_words as [|w rest]; [by exists 0%nat |].
  set (cur := w :: rest) in *.
  assert (Hlen : (1 <= length cur)%nat) by (simpl; lia).
  destruct (find _ _) as [i|] eqn:Hf.
  - apply find_some in Hf as [Hi _]. apply elem_of_range_down in Hi.
    exists (i + 1)%nat. split; [done |]. split; lia.
  - assert (Hall : exists j : nat, cur = firstn j cur /\
              (length cur - 2 <= j <= length cur)%nat /\ (cur <> [] -> (1 <= j)%nat)).
    { exists (length cur). split; [by rewrite firstn_all |]. split; lia. }
    destruct (next_idx <? len all_words); [| done].
    destruct (existsb _ _ && (3 <? length cur)%nat) eqn:E; [| done].
    apply andb_true_iff in E as [_ E]. apply Nat.ltb_lt in E.
    exists (length cur - 1)%nat. split; [| split; lia].
    rewrite removelast_firstn_len. f_equal. lia.
Qed.

(** X3. At an index that is not negative, [find_natural_break] returns
    a prefix of the line that gives back at most two words and never
    empties a line that has a word. *)
Theorem find_natural_break_gives_back_little
    (current_words all_words : list string) (next_idx : Z) :
  0 <= next_idx ->
  exists j : nat,
    find_natural_break current_words all_words next_idx = firstn j current_words /\
    (length current_words - 2 <= j <= length current_words)%nat /\
    (current_words <> [] -> (1 <= j)%nat).
Proof. intros _. apply find_natural_break_bounds. Qed.

Lemma find_natural_break_gives_back_little_witness :
  exists j : nat,
    find_natural_break ["we"; "met"; "at"; "noon,"; "by"; "chance"]
      ["we"; "met"; "at"; "noon,"; "by"; "chance"; "in"; "town"] 6
    = firstn j ["we"; "met"; "at"; "noon,"; "by"; "chance"] /\
    (length ["we"; "met"; "at"; "noon,"; "by"; "chance"] - 2 <= j
     <= length ["we"; "met"; "at"; "noon,"; "by"; "chance"])%nat /\
    (["we"; "met"; "at"; "noon,"; "by"; "chance"] <> [] -> (1 <= j)%nat).
Proof. apply find_natural_break_gives_back_little. lia. Defined.

Lemma find_none_all {A} (f : A -> bool) (l : list A) :
  (forall x, In x l -> f x = false) -> find f l = None.
Proof.
  induction l as [|x l IH]; intros H; [done |]. simpl.
  rewrite (H x) by (by left). apply IH. intros y Hy. apply H. by right.
Qed.

(** X4. When a full line that is not the last permitted one closes with
    words left over and none of the words that the punctuation scan
    looks at ends with a mark, the line loses its last word exactly when
    it has more than 3 words and the next word of the text, in lower
    case, is one of the 15 words of [dont_break_before]; that word then
    starts the next line. Otherwise the line stays as filled. *)
Theorem stop_word_break
    (words : list string) (max_words_per_line max_lines line_num word_idx : Z)
    (filled : list string) (word_idx' : Z) :
  1 <= max_words_per_line ->
  0 <= word_idx <= len words ->
  collect_words (length words) words max_words_per_line [] word_idx
    = (filled, word_idx') ->
  line_num < max_lines - 1 -> word_idx' < len words ->
  (forall j, (length filled - 4 < j < length filled)%nat ->
             ends_with_break (nth j filled "") = false) ->
  layout_line words max_words_per_line max_lines line_num word_idx
  = if existsb (String.eqb (lower (nth (Z.to_nat word_idx') words "")))
               dont_break_before
       && (3 <? length filled)%nat
    then (removelast filled, word_idx' - 1)
    else (filled, word_idx').
Proof.
  intros Hm Hidx Hfill Hln Hmore Hnone.
  pose proof Hfill as Hspec.
  rewrite collect_words_spec in Hspec;
    [| lia | unfold len in *; lia | unfold len; simpl; lia].
  cbv zeta in Hspec. change (len []) with 0 in Hspec. rewrite Z.sub_0_r in Hspec.
  simpl app in Hspec.
  set (k := Z.to_nat (Z.min max_words_per_line (len words - word_idx))) in *.
  injection Hspec as Hf1 Hf2.
  assert (Hlen : length filled = k).
  { rewrite <- Hf1. rewrite length_firstn, length_skipn. unfold k, len in *. lia. }
  assert (Hk : Z.of_nat k = max_words_per_line) by (unfold k in *; lia).
  unfold layout_line. rewrite Hfill.
  replace (line_num <? max_lines - 1) with true by (symmetry; apply Z.ltb_lt; lia).
  replace (word_idx' <? len words) with true by (symmetry; apply Z.ltb_lt; lia).
  cbn [andb].
  unfold find_natural_break. destruct filled as [|w rest] eqn:Hfilled.
  { simpl in Hlen. lia. }
  rewrite <- Hfilled in *. clear Hfilled.
  rewrite find_none_all.
  2:{ intros j Hj. apply elem_of_range_down in Hj. apply Hnone. lia. }
  replace (word_idx' <? len words) with true by (symmetry; apply Z.ltb_lt; lia).
  destruct (existsb _ _ && (3 <? length filled)%nat) eqn:E.
  - f_equal. apply andb_true_iff in E as [_ E]. apply Nat.ltb_lt in E.
    unfold len. rewrite removelast_firstn_len, length_firstn. lia.
  - f_equal. unfold len. lia.
Qed.

Lemma stop_word_break_witness :
  layout_line ["walk"; "along"; "the"; "bank"; "of"; "the"; "river"] 4 2 0 0
  = (["walk"; "along"; "the"], 3).
Proof.
  apply (stop_word_break ["walk"; "along"; "the"; "bank"; "of"; "the"; "river"]
           4 2 0 0 ["walk"; "along"; "the"; "bank"] 4);
    try reflexivity; try (unfold len; simpl; lia).
  intros j Hj. simpl in Hj.
  assert (j = 1 \/ j = 2 \/ j = 3)%nat as [-> | [-> | ->]] by lia; reflexivity.
Defined.

(** The lines of a title of a text with at least one word, as lists of
    words: none is empty. *)
Lemma title_word_lines (node_content : string) (mwpl max_lines : Z) :
  1 <= mwpl -> 1 <= max_lines -> split node_content <> [] ->
  exists wls : list (list string),
    get_smart_title node_content mwpl max_lines
      = Some (join nl (map (join " ") wls)) /\
    wls <> [] /\
    Forall (fun wl => Forall (fun w => is_word w = true) wl /\ wl <> []) wls.
Proof.
  intros Hm Hl Hne. pose proof (split_all_words node_content) as Hwords.
  destruct (Z_le_gt_dec (len (split node_content)) mwpl) as [Hshort | Hlong].
  - exists [split node_content]. split.
    { unfold get_smart_title. fold (normalize node_content).
      rewrite words_of_title. apply Z.leb_le in Hshort. rewrite Hshort.
      unfold normalize. by rewrite split_strip. }
    split; [done |]. by repeat constructor.
  - destruct (get_smart_title_long node_content mwpl max_lines Hm Hl)
      as (wls & wls' & k & Hwls & Hall & _ & Hcat & _ & Hrun & Hcase); [lia |].
    assert (Hw : Forall (Forall (fun w => is_word w = true)) wls).
    { apply Forall_concat. rewrite Hcat. by apply Forall_take. }
    exists wls'. split; [done |].
    destruct Hcase as [[_ ->] | (_ & wls0 & wl0 & w & -> & ->)].
    + split; [done |]. apply Forall_forall. intros wl Hin.
      rewrite Forall_forall in Hall, Hw. split; [by apply Hw | by apply Hall].
    + split; [by destruct wls0 |].
      apply Forall_app in Hall as [Hall0 _], Hw as [Hw0 Hw1].
      inversion Hw1 as [|? ? Hw1' _]; subst.
      apply Forall_app in Hw1' as [Hwl0 Hw1'].
      inversion Hw1' as [|? ? Hwm _]; subst.
      apply Forall_app. split.
      * apply Forall_forall. intros wl Hin.
        rewrite Forall_forall in Hall0, Hw0. split; [by apply Hw0 | by apply Hall0].
      * constructor; [| done]. split; [| by destruct wl0].
        apply Forall_app. split; [done |]. constructor; [| done].
        by apply is_word_marker.
Qed.

(** X5. Within bounds of at least one word and one line, every line of
    the title of a text that has a word holds at least one word and is
    in normal form: no whitespace at its ends, one blank between words. *)
Theorem title_lines_clean (node_content : string)
    (max_words_per_line max_lines : Z) :
  1 <= max_words_per_line -> 1 <= max_lines -> split node_content <> [] ->
  exists out : string,
    get_smart_title node_content max_words_per_line max_lines = Some out /\
    Forall (fun line => split line <> [] /\ normalize line = line)
           (split_on newline out).
Proof.
  intros Hm Hl Hne.
  destruct (title_word_lines node_content max_words_per_line max_lines Hm Hl Hne)
    as (wls & Hrun & Hwls & Hall).
  exists (join nl (map (join " ") wls)). split; [done |].
  rewrite split_on_join.
  - apply Forall_map. eapply Forall_impl; [exact Hall |].
    intros wl [Hw Hwl]. simpl. unfold normalize.
    rewrite split_strip, split_join by done. done.
  - by destruct wls.
  - apply Forall_map. eapply Forall_impl; [exact Hall |].
    intros wl [Hw _]. simpl. by apply no_newline_join.
Qed.

Lemma title_lines_clean_witness :
  exists out : string,
    get_smart_title "  one two,   three four five six  seven " 3 2 = Some out /\
    Forall (fun line => split line <> [] /\ normalize line = line)
           (split_on newline out).
Proof. apply title_lines_clean; [lia | lia | vm_compute; discriminate]. Defined.

Lemma concat_length_bound {A} (m : Z) (ls : list (list A)) :
  0 <= m -> Forall (fun l => len l <= m) ls -> len (concat ls) <= m * len ls.
Proof.
  intros Hm. unfold len. induction 1 as [|l ls Hl _ IH]; simpl; [lia |].
  rewrite length_app. lia.
Qed.

(** X6. Within bounds of at least one word and one line, a text of more
    than [max_words_per_line * max_lines] words always gets the marker:
    the title is some text followed by three dots. *)
Theorem title_truncated_above_capacity (node_content : string)
    (max_words_per_line max_lines : Z) :
  1 <= max_words_per_line -> 1 <= max_lines ->
  max_words_per_line * max_lines < len (split node_content) ->
  exists body : string,
    get_smart_title node_content max_words_per_line max_lines
    = Some (body +:+ "...").
Proof.
  intros Hm Hl Hcap.
  destruct (get_smart_title_long node_content max_words_per_line max_lines Hm Hl)
    as (wls & wls' & k & Hwls & Hall & Hcount & Hcat & Hk & Hrun & Hcase); [nia |].
  destruct Hcase as [[-> ->] | (_ & wls0 & wl0 & w & -> & ->)].
  - exfalso. rewrite firstn_all in Hcat.
    assert (Hb : len (concat wls) <= max_words_per_line * len wls).
    { apply concat_length_bound; [lia |].
      eapply Forall_impl; [exact Hall |]. by intros wl [_ ?]. }
    rewrite Hcat in Hb. nia.
  - exists (join nl (map (join " ") (wls0 ++ [wl0 ++ [w]]))).
    rewrite Hrun. f_equal. rewrite !map_app. simpl map.
    by rewrite (join_snoc_marker " "), (join_snoc_marker nl).
Qed.

Lemma title_truncated_above_capacity_witness :
  exists body : string,
    get_smart_title "one two three four five" 2 2 = Some (body +:+ "...").
Proof. apply title_truncated_above_capacity; [lia | lia | vm_compute; reflexivity]. Defined.

(** One round of the outer loop, with what it takes at least: a line
    that is not the last takes all but two of the words it can hold, and
    one at least, unless fewer are left; the last line takes all it can
    hold. *)
Lemma layout_line_progress (words : list string) (mwpl max_lines line_num idx : Z) :
  1 <= mwpl -> 0 <= idx < len words ->
  exists k : Z,
    snd (layout_line words mwpl max_lines line_num idx) = idx + k /\
    1 <= k <= mwpl /\ idx + k <= len words /\
    Z.min (Z.max 1 (mwpl - 2)) (len words - idx) <= k /\
    (max_lines - 1 <= line_num -> k = Z.min mwpl (len words - idx)).
Proof.
  intros Hm Hidx. unfold layout_line.
  rewrite collect_words_spec; [| lia | unfold len in *; lia | unfold len; simpl; lia].
  cbv zeta. change (len []) with 0. rewrite Z.sub_0_r. simpl app.
  set (k := Z.to_nat (Z.min mwpl (len words - idx))).
  destruct ((line_num <? max_lines - 1) && (idx + Z.of_nat k <? len words)) eqn:E.
  - apply andb_true_iff in E as [E1 E2]. apply Z.ltb_lt in E1, E2.
    assert (Hkm : Z.of_nat k = mwpl) by (unfold k in *; lia).
    set (cur := firstn k (skipn (Z.to_nat idx) words)).
    assert (Hcl : length cur = k).
    { unfold cur. rewrite length_firstn, length_skipn. unfold len in *. lia. }
    destruct (find_natural_break_bounds cur words (idx + Z.of_nat k))
      as (j & -> & Hj & Hj1).
    assert ((1 <= j)%nat).
    { apply Hj1. intros Hc. rewrite Hc in Hcl. simpl in Hcl. lia. }
    exists (Z.of_nat j). simpl. unfold len. rewrite length_firstn, Hcl.
    split; [lia |]. split; [lia |]. split; [unfold len in *; lia |].
    split; lia.
  - exists (Z.of_nat k). simpl. unfold k.
    split; [done |]. split; [lia |]. split; [lia |]. split; lia.
Qed.

Lemma layout_lines_progress (words : list string) (mwpl max_lines : Z) :
  1 <= mwpl ->
  forall (m a : nat) (lines : list string) (idx : Z),
    (1 <= m)%nat -> Z.of_nat (a + m) = max_lines -> 0 <= idx <= len words ->
    Z.min (len words) (idx + (Z.of_nat m - 1) * Z.max 1 (mwpl - 2) + mwpl)
    <= snd (layout_lines words mwpl max_lines (map Z.of_nat (seq a m)) lines idx)
    <= len words.
Proof.
  intros Hm. induction m as [|m IH]; intros a lines idx Hpos Hlast Hidx; [lia |].
  simpl. destruct (len words <=? idx) eqn:E.
  { apply Z.leb_le in E. simpl. nia. }
  apply Z.leb_gt in E.
  destruct (layout_line_progress words mwpl max_lines (Z.of_nat a) idx Hm)
    as (k & Hk & Hk1 & Hk2 & Hk3 & Hk4); [lia |].
  destruct (layout_line words mwpl max_lines (Z.of_nat a) idx) as [cur idx'].
  simpl in Hk. subst idx'.
  destruct m as [|m'].
  - simpl. rewrite Hk4 by lia. lia.
  - specialize (IH (S a) (lines ++ [join " " cur]) (idx + k)).
    destruct IH as [IHlo IHhi]; [lia | lia | lia |].
    split; [| done]. etransitivity; [| exact IHlo].
    replace (Z.of_nat (S (S m')) - 1) with (Z.of_nat (S m') - 1 + 1) by lia.
    nia.
Qed.

(** X7. Within bounds of at least one word and one line, no word is cut
    off from a text of at most
    [(max_lines - 1) * max (1, max_words_per_line - 2) + max_words_per_line]
    words: the words of the title are the words of the text, with no
    marker. *)
Theorem title_complete_below_capacity (node_content : string)
    (max_words_per_line max_lines : Z) :
  1 <= max_words_per_line -> 1 <= max_lines ->
  len (split node_content)
    <= (max_lines - 1) * Z.max 1 (max_words_per_line - 2) + max_words_per_line ->
  exists out : string,
    get_smart_title node_content max_words_per_line max_lines = Some out /\
    split out = split node_content.
Proof.
  intros Hm Hl Hcap.
  destruct (Z_le_gt_dec (len (split node_content)) max_words_per_line)
    as [Hshort | Hlong].
  { exists (normalize node_content). split; [| apply words_of_title].
    apply get_smart_title_short. by rewrite words_of_title. }
  unfold get_smart_title. fold (normalize node_content). rewrite words_of_title.
  set (words := split node_content) in *.
  replace (len words <=? max_words_per_line) with false
    by (symmetry; apply Z.leb_gt; lia).
  destruct (layout_lines_spec words max_words_per_line max_lines Hm
              (py_range max_lines) [] 0)
    as (wls & idx & Hrun & (Hidx & Hcat & Hall) & _).
  { split; [unfold len; lia |]. split; [done | constructor]. }
  pose proof (layout_lines_progress words max_words_per_line max_lines Hm
                (Z.to_nat max_lines) 0 [] 0) as Hprog.
  simpl map in Hrun. unfold py_range in Hrun. rewrite Hrun in Hprog. simpl in Hprog.
  destruct Hprog as [Hlo _]; [lia | lia | unfold len; lia |].
  assert (Hfull : idx = len words).
  { replace (Z.of_nat (Z.to_nat max_lines)) with max_lines in Hlo by lia. lia. }
  unfold py_range. rewrite Hrun.
  replace (idx <? len words) with false by (symmetry; apply Z.ltb_ge; lia).
  simpl. eexists. split; [reflexivity |].
  assert (Hwords : concat wls = words).
  { rewrite Hcat, Hfull. unfold len. rewrite Nat2Z.id. apply firstn_all. }
  fold nl. rewrite split_join_lines; [done |].
  apply Forall_concat. rewrite Hwords. apply split_all_words.
Qed.

Lemma title_complete_below_capacity_witness :
  exists out : string,
    get_smart_title "one, two three, four five. six seven eight" 4 3 = Some out /\
    split out = split "one, two three, four five. six seven eight".
Proof.
  apply title_complete_below_capacity; [lia | lia | vm_compute; discriminate].
Defined.

(** ** The loader at its edges *)

Section ReconcilerEdges.
Variable json_loads : string -> option json.
Variable Graph_init : list (string * json) -> exn + Graph.t.

Lemma scan_lines_some (lines : list string) :
  forall (graph : option Graph.t) (warnings : list exn) (g : Graph.t)
         (warnings' : list exn),
    scan_lines json_loads Graph_init lines graph warnings = inr (Some g, warnings') ->
    graph = Some g \/
    exists line tag,
      In line lines /\ (tag = "SystemFinishEvent" \/ tag = "GraphMergeEvent") /\
      event_with_graph json_loads Graph_init tag line g.
Proof.
  induction lines as [|line rest IH]; intros graph warnings g warnings' Hrun.
  { injection Hrun as -> _. by left. }
  simpl in Hrun.
  assert (Hrest : forall graph0 w0,
            scan_lines json_loads Graph_init rest graph0 w0 = inr (Some g, warnings') ->
            graph0 = Some g \/
            exists line0 tag,
              In line0 (line :: rest) /\
              (tag = "SystemFinishEvent" \/ tag = "GraphMergeEvent") /\
              event_with_graph json_loads Graph_init tag line0 g).
  { intros graph0 w0 H0. destruct (IH _ _ _ _ H0) as [? | (l0 & tag & ? & ? & ?)];
      [by left |]. right. exists l0, tag. split; [by right | done]. }
  destruct (String.eqb (strip line) "") eqn:Hb; [by eapply Hrest |].
  apply String.eqb_neq in Hb.
  assert (Hhere : forall g0 fl,
            try_line json_loads Graph_init graph line = inr (Some g0, fl) ->
            Some g0 = Some g ->
            graph = Some g \/
            exists line0 tag,
              In line0 (line :: rest) /\
              (tag = "SystemFinishEvent" \/ tag = "GraphMergeEvent") /\
              event_with_graph json_loads Graph_init tag line0 g).
  { intros g0 fl Ht [= ->]. destruct (try_line_some json_loads Graph_init _ _ _ _ Hb Ht) as [? | (tag & ? & ?)];
      [by left |]. right. exists line, tag. split; [by left | done]. }
  destruct (try_line json_loads Graph_init graph line) as [e|[graph1 [|]]] eqn:Ht.
  - destruct (caught e); [by eapply Hrest | done].
  - destruct (Hrest _ _ Hrun) as [-> | ?]; [| by right]. exact (Hhere _ _ eq_refl eq_refl).
  - injection Hrun as -> _. exact (Hhere _ _ eq_refl eq_refl).
Qed.

(** X8. A graph that the loader returns was built by the constructor
    from the non-empty graph object of a full-snapshot or
    incremental-merge event on a line of the log. *)
Theorem loaded_graph_comes_from_an_event (lines : list string) (g : Graph.t)
    (warnings : list exn) :
  load_graph_from_jsonl json_loads Graph_init lines = inr (Some g, warnings) ->
  exists line tag,
    In line lines /\ (tag = "SystemFinishEvent" \/ tag = "GraphMergeEvent") /\
    event_with_graph json_loads Graph_init tag line g.
Proof.
  intros Hrun. by destruct (scan_lines_some _ _ _ _ _ Hrun) as [? | ?].
Qed.

Lemma scan_lines_unrecognized (lines : list string) :
  Forall (fun line =>
            strip line = "" \/ json_loads line = None \/
            exists ev,
              json_loads line = Some (JObj ev) /\
              ((is_str (default JNull (dict_get ev "event")) "SystemFinishEvent" = false /\
                is_str (default JNull (dict_get ev "event")) "GraphMergeEvent" = false) \/
               exists d,
                 default (JObj []) (dict_get ev "data") = JObj d /\
                 truthy (default (JObj []) (dict_get d "graph")) = false))
         lines ->
  forall (graph : option Graph.t) (warnings : list exn),
    Forall (fun e => e = JSONDecodeError) warnings ->
    exists warnings',
      scan_lines json_loads Graph_init lines graph warnings = inr (graph, warnings') /\
      Forall (fun e => e = JSONDecodeError) warnings'.
Proof.
  induction 1 as [|line rest Hline _ IH]; intros graph warnings Hw.
  { by exists warnings. }
  simpl. destruct (String.eqb (strip line) "") eqn:Hb; [by apply IH |].
  apply String.eqb_neq in Hb.
  destruct Hline as [? | [Hnone | (ev & Hl & Hev)]]; [done | |].
  - unfold try_line. rewrite Hnone. simpl. apply IH.
    apply Forall_app. split; [done | by repeat constructor].
  - assert (Ht : try_line json_loads Graph_init graph line = inr (graph, Next)).
    { unfold try_line. rewrite Hl.
      destruct Hev as [[-> ->] | (d & Hd & Hg)]; [done |].
      assert (Hdata : graph_of_data Graph_init
                        (default (JObj []) (dict_get ev "data")) = inr None).
      { rewrite Hd. unfold graph_of_data. by rewrite Hg. }
      rewrite Hdata.
      destruct (is_str (default JNull (dict_get ev "event")) "SystemFinishEvent");
        [done |].
      by destruct (is_str (default JNull (dict_get ev "event")) "GraphMergeEvent"). }
    rewrite Ht. by apply IH.
Qed.

(** X9. A log without a usable event gives no graph and no failure:
    when every line is blank, or does not decode, or is an event of
    another kind, or carries no graph or an empty one, the loader returns
    no graph, and it has warned only of lines that did not decode. *)
Theorem no_usable_event_no_graph (lines : list string) :
  Forall (fun line =>
            strip line = "" \/ json_loads line = None \/
            exists ev,
              json_loads line = Some (JObj ev) /\
              ((is_str (default JNull (dict_get ev "event")) "SystemFinishEvent" = false /\
                is_str (default JNull (dict_get ev "event")) "GraphMergeEvent" = false) \/
               exists d,
                 default (JObj []) (dict_get ev "data") = JObj d /\
                 truthy (default (JObj []) (dict_get d "graph")) = false))
         lines ->
  exists warnings,
    load_graph_from_jsonl json_loads Graph_init lines = inr (None, warnings) /\
    Forall (fun e => e = JSONDecodeError) warnings.
Proof. intros H. by apply scan_lines_unrecognized. Qed.

(** X10. A record of the wrong shape is not skipped: when the scan
    reaches a line that decodes to a value that is no object, or to a
    full-snapshot or incremental-merge event whose data is no object,
    the loader fails with [AttributeError], whatever graph it had found
    and whatever follows. *)
Theorem wrong_shape_aborts (pre : list string) (line : string) (post : list string) :
  forallb (passes json_loads Graph_init) pre = true ->
  strip line <> "" ->
  (exists v, json_loads line = Some v /\ forall ev, v <> JObj ev) \/
  (exists ev v,
     json_loads line = Some (JObj ev) /\
     is_str (default JNull (dict_get ev "event")) "SystemFinishEvent"
     || is_str (default JNull (dict_get ev "event")) "GraphMergeEvent" = true /\
     dict_get ev "data" = Some v /\ forall d, v <> JObj d) ->
  load_graph_from_jsonl json_loads Graph_init (pre ++ line :: post)
  = inl AttributeError.
Proof.
  intros Hpre Hnb Hshape. unfold load_graph_from_jsonl.
  destruct (scan_lines_passes json_loads Graph_init pre Hpre None [])
    as (graph' & warnings' & Hscan).
  rewrite Hscan. simpl. apply String.eqb_neq in Hnb. rewrite Hnb.
  assert (Ht : try_line json_loads Graph_init graph' line = inl AttributeError).
  { unfold try_line. destruct Hshape as [(v & -> & Hv) | (ev & v & -> & Htag & Hd & Hv)].
    - destruct v; try done. by destruct (Hv members).
    - rewrite Hd. simpl.
      assert (Hdata : graph_of_data Graph_init v = inl AttributeError).
      { destruct v; try done. by destruct (Hv members). }
      rewrite Hdata. apply orb_true_iff in Htag as [-> | ->]; [done |].
      by destruct (is_str (default JNull (dict_get ev "event")) "SystemFinishEvent"). }
  by rewrite Ht.
Qed.

(** X11. A full-snapshot or incremental-merge event whose non-empty
    graph object the constructor rejects: when the exception is one of
    the three that are caught, the record is skipped with one warning,
    the graph found so far stays, and the scan goes on, past a full
    snapshot too; any other exception ends the load. *)
Theorem rejected_graph (line : string) (ev d gd : list (string * json)) (e : exn) :
  strip line <> "" ->
  json_loads line = Some (JObj ev) ->
  is_str (default JNull (dict_get ev "event")) "SystemFinishEvent"
  || is_str (default JNull (dict_get ev "event")) "GraphMergeEvent" = true ->
  dict_get ev "data" = Some (JObj d) ->
  dict_get d "graph" = Some (JObj gd) -> gd <> [] ->
  Graph_init gd = inl e ->
  forall (rest : list string) (graph : option Graph.t) (warnings : list exn),
    scan_lines json_loads Graph_init (line :: rest) graph warnings
    = if caught e
      then scan_lines json_loads Graph_init rest graph (warnings ++ [e])
      else inl e.
Proof.
  intros Hnb Hl Htag Hd Hg Hne Hi rest graph warnings.
  simpl. apply String.eqb_neq in Hnb. rewrite Hnb.
  assert (Ht : try_line json_loads Graph_init graph line = inl e).
  { unfold try_line. rewrite Hl, Hd. cbn [default from_option id].
    assert (Hdata : graph_of_data Graph_init (JObj d) = inl e).
    { unfold graph_of_data. rewrite Hg. simpl. destruct gd; [done |]. by rewrite Hi. }
    rewrite Hdata. apply orb_true_iff in Htag as [-> | ->]; [done |].
    by destruct (is_str (default JNull (dict_get ev "event")) "SystemFinishEvent"). }
  by rewrite Ht.
Qed.
End ReconcilerEdges.

Lemma loaded_graph_comes_from_an_event_witness :
  exists line tag,
    In line ["merge n1"; "progress"; "finish n1 n2"; "merge n1"] /\
    (tag = "SystemFinishEvent" \/ tag = "GraphMergeEvent") /\
    event_with_graph demo_loads demo_init tag line graph_n1_n2.
Proof.
  apply (loaded_graph_comes_from_an_event demo_loads demo_init
           ["merge n1"; "progress"; "finish n1 n2"; "merge n1"] graph_n1_n2 []).
  vm_compute. reflexivity.
Defined.

Lemma no_usable_event_no_graph_witness :
  exists warnings,
    load_graph_from_jsonl demo_loads demo_init
      [""; "not json"; "progress"; "finish without graph"]
    = inr (None, warnings) /\
    Forall (fun e => e = JSONDecodeError) warnings.
Proof.
  apply no_usable_event_no_graph.
  constructor; [by left |].
  constructor; [right; by left |].
  constructor; [right; right; eexists; split; [reflexivity |]; left; by split |].
  constructor; [| constructor].
  right. right. eexists. split; [reflexivity |]. right. by exists [].
Defined.

Lemma wrong_shape_aborts_witness :
  load_graph_from_jsonl demo_loads_bad demo_init
    (["merge n1"; ""] ++ "merge with data 5" :: ["finish n1 n2"])
  = inl AttributeError.
Proof.
  apply wrong_shape_aborts.
  - vm_compute. reflexivity.
  - vm_compute. discriminate.
  - right. eexists _, (JNum 5). split; [reflexivity |].
    split; [reflexivity |]. split; [reflexivity | done].
Defined.

Lemma rejected_graph_witness :
  scan_lines demo_loads_bad demo_init_strict
    ("finish with a graph without nodes" :: ["merge n1"]) (Some graph_n1_n2) []
  = if caught TypeError
    then scan_lines demo_loads_bad demo_init_strict ["merge n1"]
           (Some graph_n1_n2) ([] ++ [TypeError])
    else inl TypeError.
Proof.
  eapply (rejected_graph demo_loads_bad demo_init_strict
            "finish with a graph without nodes");
    try reflexivity; [vm_compute; discriminate | done].
Defined.

(** ** The level table *)

(** What the table holds of a node and its premises. *)
Lemma levels_ascend (graph : Graph.t) (fuel : nat) (levels : gmap string nat) :
  calculate_node_levels fuel graph = Some levels ->
  forall n node,
    dict_get (Graph.nodes graph) n = Some node ->
    exists l,
      levels !! n = Some l /\
      (l = 0%nat <-> existing_premises graph node = []) /\
      forall p, In p (existing_premises graph node) ->
                exists lp, levels !! p = Some lp /\ (lp < l)%nat.
Proof.
  intros Hrun n node Hnode.
  pose proof (calculate_node_levels_sound graph fuel levels Hrun) as Hchar.
  unfold calculate_node_levels in Hrun.
  destruct (level_loop_sound graph fuel _ _ _ Hrun) as (_ & _ & Hall); [done |].
  destruct (Hall n) as [l Hl].
  { by eapply dict_get_keys. }
  { apply dict_mem_get. eauto. }
  exists l. split; [done |]. apply Hchar in Hl.
  inversion Hl as [? node' Hn' He | ? node' ls Hn' He Hls]; subst;
    rewrite Hnode in Hn'; injection Hn' as <-.
  - split; [done |]. intros p Hp. by rewrite He in Hp.
  - split; [split; [lia | done] |]. intros p Hp.
    destruct (Forall2_In_l _ _ _ _ Hls Hp) as (lp & Hlp & Hp_level).
    exists lp. split; [by apply Hchar |]. apply max_list_ge in Hlp. lia.
Qed.

(** X12. In the table that the calculator returns every premise of a
    node that is itself a node has a smaller level than the node, and
    the nodes at level 0 are exactly those without such a premise. *)
Theorem premises_have_lower_levels (graph : Graph.t) (fuel : nat)
    (levels : gmap string nat) :
  calculate_node_levels fuel graph = Some levels ->
  forall n node,
    dict_get (Graph.nodes graph) n = Some node ->
    exists l,
      levels !! n = Some l /\
      (l = 0%nat <-> existing_premises graph node = []) /\
      forall p, In p (existing_premises graph node) ->
                exists lp, levels !! p = Some lp /\ (lp < l)%nat.
Proof. apply levels_ascend. Qed.

Lemma premises_have_lower_levels_witness :
  exists l,
    ({[ "A" := 0%nat; "B" := 1%nat; "C" := 2%nat ]} : gmap string nat) !! "C" = Some l /\
    (l = 0%nat <-> existing_premises chain_graph (snd (plain_node "C" ["B"])) = []) /\
    forall p, In p (existing_premises chain_graph (snd (plain_node "C" ["B"]))) ->
              exists lp,
                ({[ "A" := 0%nat; "B" := 1%nat; "C" := 2%nat ]} : gmap string nat) !! p
                = Some lp /\ (lp < l)%nat.
Proof.
  apply (premises_have_lower_levels chain_graph 3); [vm_compute |]; reflexivity.
Defined.

(** X13. The table has an entry for an identifier exactly when the
    identifier is a key of the node mapping: every node gets a level,
    a premise that is no node gets none. *)
Theorem levels_cover_the_nodes (graph : Graph.t) (fuel : nat)
    (levels : gmap string nat) :
  calculate_node_levels fuel graph = Some levels ->
  forall k, is_Some (levels !! k) <-> dict_mem (Graph.nodes graph) k = true.
Proof.
  intros Hrun k.
  pose proof (calculate_node_levels_sound graph fuel levels Hrun) as Hchar.
  split.
  - intros [l Hl]. eapply level_of_node. by apply Hchar.
  - intros Hmem. unfold calculate_node_levels in Hrun.
    destruct (level_loop_sound graph fuel _ _ _ Hrun) as (_ & _ & Hall); [done |].
    apply Hall; [| done]. apply dict_mem_get in Hmem as [v Hv].
    by eapply dict_get_keys.
Qed.

Lemma levels_cover_the_nodes_witness :
  is_Some (({[ "D" := 0%nat ]} : gmap string nat) !! "ghost")
  <-> dict_mem (Graph.nodes ghost_graph) "ghost" = true.
Proof. apply (levels_cover_the_nodes ghost_graph 1). vm_compute. reflexivity. Defined.

Lemma dict_get_In {V} (d : list (string * V)) (k : string) (v : V) :
  List.NoDup (dict_keys d) -> (dict_get d k = Some v <-> In (k, v) d).
Proof.
  intros Hnd. split.
  - induction d as [|[k' v'] d IH]; [done |]. simpl.
    inversion Hnd; subst.
    destruct (String.eqb k' k) eqn:E.
    + apply String.eqb_eq in E. intros [= ->]. left. by subst.
    + intros H. right. by apply IH.
  - intros Hin. destruct (dict_keys_get d k) as [v' Hv'].
    { unfold dict_keys. apply in_map_iff. by exists (k, v). }
    rewrite Hv'. f_equal.
    assert (Hin' : In (k, v') d).
    { clear Hin Hnd. induction d as [|[k0 v0] d IH]; [done |]. simpl in *.
      destruct (String.eqb k0 k) eqn:E.
      - apply String.eqb_eq in E. injection Hv' as ->. left. by subst.
      - right. by apply IH. }
    by eapply dict_values_unique.
Qed.

Lemma dict_get_permutation {V} (d d' : list (string * V)) (k : string) :
  Permutation d d' -> List.NoDup (dict_keys d) -> dict_get d k = dict_get d' k.
Proof.
  intros Hp Hnd.
  assert (Hnd' : List.NoDup (dict_keys d')).
  { eapply Permutation_NoDup; [| exact Hnd]. by apply Permutation_map. }
  destruct (dict_get d k) as [v|] eqn:E.
  - apply dict_get_In in E; [| done]. symmetry. apply dict_get_In; [done |].
    by eapply Permutation_in.
  - destruct (dict_get d' k) as [v'|] eqn:E'; [| done].
    apply dict_get_In in E'; [| done].
    assert (Hin : In (k, v') d) by (eapply Permutation_in; [symmetry |]; done).
    apply dict_get_In in Hin; [| done]. congruence.
Qed.

Lemma Forall2_impl_In {A B} (R R' : A -> B -> Prop) (xs : list A) (ys : list B) :
  Forall2 R xs ys -> (forall x y, In y ys -> R x y -> R' x y) -> Forall2 R' xs ys.
Proof.
  induction 1 as [|x y xs ys Hxy _ IH]; intros H; [constructor |].
  constructor; [apply H; [by left | done] |].
  apply IH. intros x' y' Hy'. apply H. by right.
Qed.

(** Levels depend on the node mapping through its lookups only. *)
Lemma level_of_ext (graph graph' : Graph.t) :
  (forall k, dict_get (Graph.nodes graph) k = dict_get (Graph.nodes graph') k) ->
  forall (l : nat) (n : string), level_of graph n l -> level_of graph' n l.
Proof.
  intros Hext.
  assert (Hprem : forall node, existing_premises graph node
                               = existing_premises graph' node).
  { intros node. unfold existing_premises. apply filter_ext. intros p.
    unfold dict_mem. by rewrite Hext. }
  induction l as [l IH] using lt_wf_ind. intros n Hl.
  inversion Hl as [? node Hn He | ? node ls Hn He Hls]; subst.
  - eapply level_of_root; [by rewrite <- Hext | by rewrite <- Hprem].
  - eapply level_of_step; [by rewrite <- Hext | by rewrite <- Hprem |].
    rewrite <- Hprem. eapply Forall2_impl_In; [exact Hls |].
    intros p lp Hlp Hp. apply (IH lp); [| done]. apply max_list_ge in Hlp. lia.
Qed.

(** X14. The table does not depend on the order in which the node
    mapping lists the nodes: for any other order of the same nodes the
    calculator returns the same table at every call depth from some
    depth on. Only the depth it needs depends on the order. *)
Theorem levels_independent_of_order
    (nodes nodes' : list (string * Node.t))
    (references references' : list (string * Reference.t))
    (fuel : nat) (levels : gmap string nat) :
  Permutation nodes nodes' -> List.NoDup (dict_keys nodes) ->
  calculate_node_levels fuel (Graph.mk nodes references) = Some levels ->
  exists depth : nat,
    forall fuel', (depth <= fuel')%nat ->
      calculate_node_levels fuel' (Graph.mk nodes' references') = Some levels.
Proof.
  intros Hperm Hnd Hrun.
  set (g := Graph.mk nodes references) in *.
  set (g' := Graph.mk nodes' references').
  assert (Hext : forall k, dict_get (Graph.nodes g) k = dict_get (Graph.nodes g') k).
  { intros k. by apply dict_get_permutation. }
  pose proof (calculate_node_levels_sound g fuel levels Hrun) as Hchar.
  assert (Hchar' : forall k l, levels !! k = Some l <-> level_of g' k l).
  { intros k l. rewrite Hchar. split; apply level_of_ext; [done |].
    intros k'. by rewrite Hext. }
  destruct (level_bound g' (dict_keys (Graph.nodes g'))) as [b Hb].
  { intros k Hk. destruct (dict_keys_get _ _ Hk) as [node Hnode].
    rewrite <- Hext in Hnode.
    destruct (levels_ascend g fuel levels Hrun k node Hnode) as (l & Hl & _).
    exists l. by apply Hchar'. }
  exists b. intros fuel' Hfuel.
  assert (Hsome : is_Some (calculate_node_levels fuel' g')).
  { apply level_loop_total; [| done]. intros n Hn.
    destruct (Hb n Hn) as (l & Hl & Hlt). exists l. split; [done | lia]. }
  destruct Hsome as [levels' Hrun']. rewrite Hrun'. f_equal.
  apply (levels_unique g'); [| done].
  by apply (calculate_node_levels_sound g' fuel').
Qed.

Lemma levels_independent_of_order_witness :
  exists depth : nat,
    forall fuel', (depth <= fuel')%nat ->
      calculate_node_levels fuel'
        (Graph.mk [plain_node "C" ["B"]; plain_node "B" ["A"]; plain_node "A" []] [])
      = Some {[ "A" := 0%nat; "B" := 1%nat; "C" := 2%nat ]}.
Proof.
  apply (levels_independent_of_order
           [plain_node "A" []; plain_node "B" ["A"]; plain_node "C" ["B"]]
           [plain_node "C" ["B"]; plain_node "B" ["A"]; plain_node "A" []]
           [] [] 2).
  - apply (Permutation_rev [plain_node "A" []; plain_node "B" ["A"]; plain_node "C" ["B"]]).
  - simpl. repeat constructor; simpl; intuition discriminate.
  - vm_compute. reflexivity.
Defined.

Example order_changes_the_depth :
  calculate_node_levels 2 chain_graph
  = Some {[ "A" := 0%nat; "B" := 1%nat; "C" := 2%nat ]} /\
  calculate_node_levels 2
    (Graph.mk [plain_node "C" ["B"]; plain_node "B" ["A"]; plain_node "A" []] [])
  = None.
Proof. vm_compute. by split. Qed.

Lemma max_list_in (ls : list nat) : ls <> [] -> In (max_list ls) ls.
Proof.
  induction ls as [|x ls IH]; [done |]. intros _. simpl.
  destruct ls as [|y ls]; [left; simpl; lia |].
  destruct (Nat.max_spec x (max_list (y :: ls))) as [[_ ->] | [_ ->]];
    [right; by apply IH | by left].
Qed.

Lemma Forall2_In_r {A B} (R : A -> B -> Prop) (xs : list A) (ys : list B) (y : B) :
  Forall2 R xs ys -> In y ys -> exists x, In x xs /\ R x y.
Proof.
  induction 1 as [|x0 y0 xs ys H0 H IH]; [done |]. simpl.
  intros [-> | Hin]; [eauto |]. destruct (IH Hin) as (x & ? & ?). eauto.
Qed.

(** A node of level [l] ends a chain of [l + 1] distinct nodes. *)
Lemma level_of_chain (graph : Graph.t) :
  forall (l : nat) (n : string),
    level_of graph n l ->
    exists chain : list string,
      length chain = S l /\ List.NoDup chain /\
      forall k, In k chain -> exists lk, level_of graph k lk /\ (lk <= l)%nat.
Proof.
  induction l as [l IH] using lt_wf_ind. intros n Hl.
  inversion Hl as [? node Hn He | ? node ls Hn He Hls]; subst.
  - exists [n]. split; [done |]. split; [repeat constructor; by intros [] |].
    intros k [<- | []]. by exists 0%nat.
  - assert (Hne : ls <> []).
    { intros ->. inversion Hls as [Hnil |]. by rewrite <- Hnil in He. }
    destruct (Forall2_In_r _ _ _ _ Hls (max_list_in ls Hne)) as (p & _ & Hp).
    destruct (IH (max_list ls)) with (n := p) as (chain & Hlen & Hnd & Hall);
      [lia | done |].
    exists (n :: chain). split; [simpl; lia |]. split.
    + constructor; [| done]. intros Hin.
      destruct (Hall n Hin) as (lk & Hlk & Hle).
      pose proof (level_of_fun graph _ _ _ Hl Hlk). lia.
    + intros k [<- | Hk].
      * exists (max_list ls + 1)%nat. split; [done | lia].
      * destruct (Hall k Hk) as (lk & Hlk & Hle). exists lk. split; [done | lia].
Qed.

(** Every level is less than the number of nodes. *)
Lemma level_below_node_count (graph : Graph.t) (n : string) (l : nat) :
  level_of graph n l -> (l < length (Graph.nodes graph))%nat.
Proof.
  intros Hl. destruct (level_of_chain graph l n Hl) as (chain & Hlen & Hnd & Hall).
  assert (Hincl : incl chain (dict_keys (Graph.nodes graph))).
  { intros k Hk. destruct (Hall k Hk) as (lk & Hlk & _).
    apply level_of_node, dict_mem_get in Hlk as [v Hv]. by eapply dict_get_keys. }
  pose proof (NoDup_incl_length Hnd Hincl) as Hle.
  unfold dict_keys in Hle. rewrite length_map in Hle. lia.
Qed.

Lemma levels_at_node_count (graph : Graph.t) :
  acyclic graph ->
  is_Some (calculate_node_levels (length (Graph.nodes graph)) graph).
Proof.
  intros Hwf. apply level_loop_total; [| done]. intros n Hn.
  destruct (acyclic_level graph Hwf n) as [l Hl].
  { apply dict_mem_get. by apply dict_keys_get. }
  exists l. split; [done | by eapply level_below_node_count].
Qed.

(** X15. A call depth of the number of nodes is always enough: the
    calculator returns at that depth exactly when the premise relation
    is acyclic, and every level in a table it returns is less than the
    number of nodes. *)
Theorem depth_of_node_count_decides (graph : Graph.t) :
  (is_Some (calculate_node_levels (length (Graph.nodes graph)) graph)
   <-> acyclic graph) /\
  (forall fuel levels,
     calculate_node_levels fuel graph = Some levels ->
     map_Forall (fun _ l => (l < length (Graph.nodes graph))%nat) levels).
Proof.
  split; [split |].
  - intros [levels Hrun]. by eapply calculate_node_levels_acyclic.
  - apply levels_at_node_count.
  - intros fuel levels Hrun k l Hl. eapply level_below_node_count.
    by apply (calculate_node_levels_sound graph fuel levels Hrun).
Qed.

Lemma depth_of_node_count_decides_witness :
  acyclic chain_graph /\
  map_Forall (fun (_ : string) l => (l < length (Graph.nodes chain_graph))%nat)
             ({[ "A" := 0%nat; "B" := 1%nat; "C" := 2%nat ]} : gmap string nat).
Proof.
  destruct (depth_of_node_count_decides chain_graph) as [Hiff Hall].
  split.
  - apply Hiff. vm_compute. eauto.
  - apply (Hall 3%nat). vm_compute. reflexivity.
Defined.

(** ** The assembled network *)

Lemma describe_node_label (graph : Graph.t) (node_levels : gmap string nat)
    (root_nodes : gset string) (node_size : Z) (node_id : string) (node : Node.t)
    (d : Net.node) :
  describe_node graph node_levels root_nodes node_size node_id node = Some d ->
  exists conclusion,
    get_smart_title (Node.conclusion node) 8 2 = Some conclusion /\
    Net.label d = Node.id node +:+ nl +:+ conclusion.
Proof.
  unfold describe_node.
  destruct (node_colors root_nodes node_id node) as [color border_color].
  destruct (get_smart_title (Node.conclusion node) 8 2) as [c1|]; [| done].
  destruct (get_smart_title (Node.conclusion node) 12 8) as [c2|]; [| done].
  destruct (get_smart_title (Node.justification node) 12 8) as [j|]; [| done].
  cbn [mbind option_bind].
  destruct (match Node.references node with [] => _ | _ :: _ => _ end) as [t|];
    [| done].
  cbn [mbind option_bind]. intros [= <-]. by exists c1.
Qed.

(** The network of a graph with distinct keys: the descriptors of the
    nodes in order, and the edges of the premises that are nodes. *)
Lemma assemble_network_nodes (graph : Graph.t) (node_levels : gmap string nat)
    (node_size : Z) :
  List.NoDup (dict_keys (Graph.nodes graph)) ->
  exists ds,
    assemble_network graph node_levels node_size
    = Some (Net.mk ds (flat_map (premise_edges graph) (Graph.nodes graph))) /\
    Forall2 (fun item d =>
               describe_node graph node_levels (root_nodes_of graph) node_size
                             (fst item) (snd item) = Some d)
            (Graph.nodes graph) ds.
Proof.
  intros Hnd. unfold assemble_network.
  destruct (add_nodes_nodup graph node_levels (root_nodes_of graph) node_size
              (Graph.nodes graph) Net.empty Hnd) as (ds & Hrun & Hds); [done |].
  destruct (add_nodes_total graph node_levels (root_nodes_of graph) node_size
              (Graph.nodes graph) Net.empty) as (net1 & Hrun1 & _ & _ & Hnodes).
  rewrite Hrun in *. injection Hrun1 as <-. cbn [mbind option_bind].
  rewrite add_edges_total; [| done |].
  2:{ intros p Hp. apply Hnodes. apply dict_mem_get in Hp as [v Hv].
      by eapply dict_get_keys. }
  by exists ds.
Qed.

(** X16. On a graph whose node mapping has distinct keys the network has
    one descriptor per node, in the order of the mapping: it carries the
    key, the size [node_size] + 100 for each reference, the level of the
    table (0 when the table has none), and as label the node's [id], a
    line break and the conclusion laid out on at most 2 lines of at most
    8 words. *)
Theorem one_descriptor_per_node (graph : Graph.t) (node_levels : gmap string nat)
    (node_size : Z) :
  List.NoDup (dict_keys (Graph.nodes graph)) ->
  exists net,
    assemble_network graph node_levels node_size = Some net /\
    Forall2 (fun item d =>
               Net.n_id d = fst item /\
               Net.size d = node_size + 100 * len (Node.references (snd item)) /\
               Net.level d = default 0%nat (node_levels !! fst item) /\
               exists conclusion,
                 get_smart_title (Node.conclusion (snd item)) 8 2 = Some conclusion /\
                 Net.label d = Node.id (snd item) +:+ nl +:+ conclusion)
            (Graph.nodes graph) (Net.nodes net).
Proof.
  intros Hnd.
  destruct (assemble_network_nodes graph node_levels node_size Hnd)
    as (ds & Hrun & Hds).
  eexists. split; [exact Hrun |]. simpl.
  eapply Forall2_impl; [exact Hds |]. intros [n node] d Hd. simpl in *.
  destruct (describe_node_spec graph node_levels (root_nodes_of graph)
              node_size n node) as (d' & Hd' & Hid & _ & Hlevel & Hsize).
  rewrite Hd in Hd'. injection Hd' as <-.
  split; [done |]. split; [rewrite Hsize; lia |]. split; [done |].
  by eapply describe_node_label.
Qed.

Lemma one_descriptor_per_node_witness :
  exists net,
    assemble_network demo_graph {[ "n2" := 1%nat ]} 25 = Some net /\
    Forall2 (fun item d =>
               Net.n_id d = fst item /\
               Net.size d = 25 + 100 * len (Node.references (snd item)) /\
               Net.level d
               = default 0%nat (({[ "n2" := 1%nat ]} : gmap string nat) !! fst item) /\
               exists conclusion,
                 get_smart_title (Node.conclusion (snd item)) 8 2 = Some conclusion /\
                 Net.label d = Node.id (snd item) +:+ nl +:+ conclusion)
            (Graph.nodes demo_graph) (Net.nodes net).
Proof.
  apply one_descriptor_per_node.
  simpl. repeat constructor; simpl; intuition discriminate.
Defined.

Lemma dict_get_In_nodup_free {V} (d : list (string * V)) (k : string) (v : V) :
  dict_get d k = Some v -> In (k, v) d.
Proof.
  induction d as [|[k' v'] d IH]; [done |]. simpl.
  destruct (String.eqb k' k) eqn:E.
  - apply String.eqb_eq in E. intros [= ->]. left. by subst.
  - intros H. right. by apply IH.
Qed.

(** X17. Every edge of the network that [create_pyvis_network] returns
    for a graph with distinct keys runs from the descriptor of a node to
    the descriptor of a node of greater level: in the layered layout
    every premise lies above what it supports. *)
Theorem edges_run_down_the_levels (graph : Graph.t) (fuel : nat) (node_size : Z)
    (net : Net.t) :
  List.NoDup (dict_keys (Graph.nodes graph)) ->
  create_pyvis_network fuel graph node_size = Some net ->
  forall p n,
    In (p, n) (Net.edges net) ->
    exists dp dn,
      In dp (Net.nodes net) /\ In dn (Net.nodes net) /\
      Net.n_id dp = p /\ Net.n_id dn = n /\
      (Net.level dp < Net.level dn)%nat.
Proof.
  intros Hnd Hrun p n Hedge. unfold create_pyvis_network in Hrun.
  destruct (calculate_node_levels fuel graph) as [levels|] eqn:Hlevels; [| done].
  simpl in Hrun.
  destruct (assemble_network_nodes graph levels node_size Hnd) as (ds & Hasm & Hds).
  rewrite Hasm in Hrun. injection Hrun as <-. simpl in *.
  apply in_flat_map in Hedge as ([n' node] & Hin & Hpe).
  unfold premise_edges in Hpe. apply in_map_iff in Hpe as (q & [= -> ->] & Hq).
  simpl in Hq.
  assert (Hnode : dict_get (Graph.nodes graph) n = Some node)
    by (by apply dict_get_In).
  destruct (levels_ascend graph fuel levels Hlevels n node Hnode)
    as (l & Hl & _ & Hprem).
  destruct (Hprem p Hq) as (lp & Hlp & Hlt).
  assert (Hpmem : dict_mem (Graph.nodes graph) p = true).
  { unfold existing_premises in Hq. by apply filter_In in Hq as [_ ?]. }
  apply dict_mem_get in Hpmem as [pnode Hpnode].
  apply dict_get_In_nodup_free in Hpnode.
  destruct (Forall2_In_l _ _ _ _ Hds Hpnode) as (dp & Hdp_in & Hdp).
  destruct (Forall2_In_l _ _ _ _ Hds Hin) as (dn & Hdn_in & Hdn).
  simpl in Hdp, Hdn.
  destruct (describe_node_spec graph levels (root_nodes_of graph) node_size p pnode)
    as (dp' & Hdp' & Hpid & _ & Hplevel & _).
  destruct (describe_node_spec graph levels (root_nodes_of graph) node_size n node)
    as (dn' & Hdn' & Hnid & _ & Hnlevel & _).
  rewrite Hdp in Hdp'. injection Hdp' as <-.
  rewrite Hdn in Hdn'. injection Hdn' as <-.
  exists dp, dn. split; [done |]. split; [done |]. split; [done |]. split; [done |].
  rewrite Hplevel, Hnlevel, Hlp, Hl. simpl. lia.
Qed.

Lemma edges_run_down_the_levels_witness :
  exists net,
    create_pyvis_network 3 demo_graph 25 = Some net /\
    forall p n,
      In (p, n) (Net.edges net) ->
      exists dp dn,
        In dp (Net.nodes net) /\ In dn (Net.nodes net) /\
        Net.n_id dp = p /\ Net.n_id dn = n /\
        (Net.level dp < Net.level dn)%nat.
Proof.
  assert (H : is_Some (create_pyvis_network 3 demo_graph 25))
    by (vm_compute; eauto).
  destruct H as [net Hnet]. exists net. split; [exact Hnet |].
  apply (edges_run_down_the_levels demo_graph 3 25 net); [| exact Hnet].
  simpl. repeat constructor; simpl; intuition discriminate.
Defined.

(** X18. [create_pyvis_network] returns a network at a call depth of
    the number of nodes exactly when the premise relation of the graph
    is acyclic; on a graph with a cycle it returns nothing at any
    depth. *)
Theorem network_iff_acyclic (graph : Graph.t) (node_size : Z) :
  (is_Some (create_pyvis_network (length (Graph.nodes graph)) graph node_size)
   <-> acyclic graph) /\
  (~ acyclic graph ->
   forall fuel, create_pyvis_network fuel graph node_size = None).
Proof.
  split.
  - rewrite create_pyvis_network_returns. split.
    + intros [levels Hrun]. by eapply calculate_node_levels_acyclic.
    + apply levels_at_node_count.
  - intros Hcyc fuel.
    destruct (create_pyvis_network fuel graph node_size) as [net|] eqn:Hrun; [| done].
    exfalso. apply Hcyc.
    assert (Hsome : is_Some (calculate_node_levels fuel graph)).
    { apply (create_pyvis_network_returns graph node_size). by exists net. }
    destruct Hsome as [levels Hlevels]. by eapply calculate_node_levels_acyclic.
Qed.

Lemma network_iff_acyclic_witness :
  is_Some (create_pyvis_network (length (Graph.nodes demo_graph)) demo_graph 25) /\
  forall fuel, create_pyvis_network fuel cyclic_graph 25 = None.
Proof.
  split.
  - apply (network_iff_acyclic demo_graph 25).
    apply (calculate_node_levels_acyclic demo_graph 3
             {[ "n1" := 0%nat; "n2" := 1%nat; "n3" := 0%nat; "n4" := 2%nat ]}).
    vm_compute. reflexivity.
  - apply (network_iff_acyclic cyclic_graph 25). apply cyclic_graph_not_acyclic.
Defined.

Lemma root_nodes_nodup (items : list (string * Node.t)) (f : string * Node.t -> bool) :
  List.NoDup (dict_keys items) -> List.NoDup (map fst (List.filter f items)).
Proof.
  induction items as [|[k v] items IH]; [constructor |]. simpl.
  intros Hnd. inversion Hnd as [|? ? Hk Hrest]; subst.
  destruct (f (k, v)); [| by apply IH]. simpl. constructor; [| by apply IH].
  intros Hin. apply Hk. apply in_map_iff in Hin as ([k' v'] & Hfst & Hf).
  simpl in Hfst. subst k'. apply filter_In in Hf as [Hf _].
  unfold dict_keys. apply in_map_iff. by exists (k, v').
Qed.

(** X19. The Root Nodes metric of [main] is the number of elements of
    the set [root_nodes] that [create_pyvis_network] builds, on a graph
    whose node mapping has distinct keys: it counts every node without
    premises, the refutations among them too, which the network does
    not colour as roots. *)
Theorem root_metric_counts_root_set (graph : Graph.t) :
  List.NoDup (dict_keys (Graph.nodes graph)) ->
  root_node_count graph = Z.of_nat (size (root_nodes_of graph)).
Proof.
  intros Hnd. unfold root_nodes_of.
  rewrite size_list_to_set.
  2:{ apply NoDup_ListNoDup. by apply root_nodes_nodup. }
  rewrite length_map. unfold root_node_count. clear Hnd.
  induction (Graph.nodes graph) as [|[k node] items IH]; [done |].
  simpl. destruct (Node.premises node); simpl; lia.
Qed.

Lemma root_metric_counts_root_set_witness :
  root_node_count demo_graph = Z.of_nat (size (root_nodes_of demo_graph)).
Proof.
  apply root_metric_counts_root_set.
  simpl. repeat constructor; simpl; intuition discriminate.
Defined.

Example demo_graph_root_metric :
  root_node_count demo_graph = 2 /\
  List.filter (String.eqb root_color)
    (default [] (map Net.color <$> (Net.nodes <$> assemble_network demo_graph ∅ 25)))
  = [root_color].
Proof. vm_compute. by split. Qed.

(** ** A width that is not positive *)

Lemma layout_line_nonpositive (words : list string) (mwpl max_lines line_num idx : Z) :
  mwpl <= 0 -> fst (layout_line words mwpl max_lines line_num idx) = [].
Proof.
  intros Hm. unfold layout_line. rewrite collect_words_negative by done.
  by destruct ((line_num <? max_lines - 1) && (idx <? len words)).
Qed.

Lemma layout_lines_nonpositive (words : list string) (mwpl max_lines : Z) :
  mwpl <= 0 ->
  forall (line_nums : list Z) (lines : list string) (idx : Z),
    Forall (fun l => l = "") lines ->
    Forall (fun l => l = "")
           (fst (layout_lines words mwpl max_lines line_nums lines idx)).
Proof.
  intros Hm. induction line_nums as [|ln rest IH]; intros lines idx Hl; [done |].
  simpl. destruct (len words <=? idx); [done |].
  pose proof (layout_line_nonpositive words mwpl max_lines ln idx Hm) as Hcur.
  destruct (layout_line words mwpl max_lines ln idx) as [cur idx'].
  simpl in Hcur. subst cur. apply IH. apply Forall_app. split; [done |].
  by repeat constructor.
Qed.

Lemma split_join_empty_lines (l0 : list string) (w : string) :
  Forall (fun l => l = "") l0 -> split (join nl (l0 ++ [w])) = split w.
Proof.
  induction 1 as [|l l0 -> _ IH]; [done |].
  change (join nl (("" :: l0) ++ [w]))
    with (match l0 ++ [w] with
          | [] => ""
          | _ :: _ => "" +:+ nl +:+ join nl (l0 ++ [w])
          end).
  destruct (l0 ++ [w]) as [|x xs] eqn:E; [by destruct l0 |].
  simpl. rewrite split_cons. exact IH.
Qed.

(** X20. With [max_words_per_line] at most 0 and at least one line
    allowed, no word of a text that has words reaches the title: the
    title consists of line breaks, followed by the marker or by
    nothing. *)
Theorem nonpositive_width_drops_the_text (node_content : string)
    (max_words_per_line max_lines : Z) :
  max_words_per_line <= 0 -> 1 <= max_lines -> split node_content <> [] ->
  exists out : string,
    get_smart_title node_content max_words_per_line max_lines = Some out /\
    (split out = [] \/ split out = ["..."]).
Proof.
  intros Hm Hl Hne. unfold get_smart_title. fold (normalize node_content).
  rewrite words_of_title. set (words := split node_content) in *.
  assert (Hlen : 0 < len words) by (unfold len; destruct words; [done | simpl; lia]).
  replace (len words <=? max_words_per_line) with false
    by (symmetry; apply Z.leb_gt; lia).
  pose proof (layout_lines_nonpositive words max_words_per_line max_lines Hm
                (py_range max_lines) [] 0 (List.Forall_nil _)) as Hempty.
  destruct (layout_lines_grows words max_words_per_line max_lines
              (py_range max_lines) [] 0) as (more & Hfst & Hmore).
  destruct (layout_lines _ _ _ _ _ _) as [lines idx]. simpl in Hfst, Hempty.
  subst lines.
  assert (Hnonempty : more <> []).
  { apply Hmore; [| done]. unfold py_range.
    replace (Z.to_nat max_lines) with (S (Z.to_nat (max_lines - 1))) by lia.
    done. }
  destruct (exists_last Hnonempty) as (l0 & x & ->).
  apply Forall_app in Hempty as [Hl0 Hx]. inversion Hx as [|? ? -> _]; subst.
  destruct (idx <? len words).
  - rewrite append_to_last_snoc. simpl. eexists. split; [reflexivity |].
    right. fold nl. by rewrite split_join_empty_lines.
  - simpl. eexists. split; [reflexivity |].
    left. fold nl. by rewrite split_join_empty_lines.
Qed.

Lemma nonpositive_width_drops_the_text_witness :
  exists out : string,
    get_smart_title "one two three" (-5) 3 = Some out /\
    (split out = [] \/ split out = ["..."]).
Proof.
  apply nonpositive_width_drops_the_text; [lia | lia | vm_compute; discriminate].
Defined.

(** ** References that are not in the graph *)

Lemma add_reference_details_missing (references : list (string * Reference.t))
    (ref_ids : list string) (tooltip : string) :
  Forall (fun r => dict_get references r = None) ref_ids ->
  add_reference_details references ref_ids tooltip = Some tooltip.
Proof.
  induction 1 as [|r rs Hr _ IH]; [done |]. simpl. by rewrite Hr.
Qed.

(** X21. Reference identifiers that are no keys of [graph.references]
    raise nothing and add no entry to the tooltip, yet they count: a
    node whose references are all of that kind gets a tooltip that ends
    with the header giving their number (and the refutation mark, if
    any), and a size that grows with their number. *)
Theorem dangling_references_counted (graph : Graph.t)
    (node_levels : gmap string nat) (root_nodes : gset string) (node_size : Z)
    (node_id : string) (node : Node.t) :
  Node.references node <> [] ->
  Forall (fun r => dict_get (Graph.references graph) r = None)
         (Node.references node) ->
  exists d conclusion justification,
    describe_node graph node_levels root_nodes node_size node_id node = Some d /\
    get_smart_title (Node.conclusion node) 12 8 = Some conclusion /\
    get_smart_title (Node.justification node) 12 8 = Some justification /\
    Net.title d
    = ("ID: " +:+ Node.id node +:+ nl +:+ nl +:+ "Conclusion: " +:+ conclusion
       +:+ nl +:+ nl +:+ "Justification: " +:+ justification
       +:+ nl +:+ nl +:+ "--- References ("
       +:+ pretty (length (Node.references node)) +:+ ") ---"
       +:+ (if Node.is_refutation node then nl +:+ nl +:+ "[REFUTATION]" else "")) /\
    Net.size d = node_size + len (Node.references node) * 100.
Proof.
  intros Hne Hall. unfold describe_node.
  destruct (node_colors root_nodes node_id node) as [color border_color].
  destruct (get_smart_title_some (Node.conclusion node) 8 2) as [c1 ->]; [lia.. |].
  destruct (get_smart_title_some (Node.conclusion node) 12 8) as [c2 ->]; [lia.. |].
  destruct (get_smart_title_some (Node.justification node) 12 8) as [j ->]; [lia.. |].
  cbn [mbind option_bind].
  destruct (Node.references node) as [|r rs] eqn:Hrefs; [done |].
  rewrite add_reference_details_missing by done.
  cbn [mbind option_bind]. eexists _, c2, j.
  split; [reflexivity |]. split; [done |]. split; [done |].
  cbn [Net.title Net.size]. split; [| done].
  destruct (Node.is_refutation node); rewrite !app_assoc_s; reflexivity.
Qed.

Lemma dangling_references_counted_witness :
  exists d conclusion justification,
    describe_node (Graph.mk [] []) ∅ ∅ 25 "n1"
      (Node.mk "n1" "A claim" "because" [] ["r1"; "r2"] true) = Some d /\
    get_smart_title "A claim" 12 8 = Some conclusion /\
    get_smart_title "because" 12 8 = Some justification /\
    Net.title d
    = ("ID: " +:+ "n1" +:+ nl +:+ nl +:+ "Conclusion: " +:+ conclusion
       +:+ nl +:+ nl +:+ "Justification: " +:+ justification
       +:+ nl +:+ nl +:+ "--- References ("
       +:+ pretty (length ["r1"; "r2"]) +:+ ") ---"
       +:+ (if true then nl +:+ nl +:+ "[REFUTATION]" else "")) /\
    Net.size d = 25 + len ["r1"; "r2"] * 100.
Proof.
  apply (dangling_references_counted (Graph.mk [] []) ∅ ∅ 25 "n1"
           (Node.mk "n1" "A claim" "because" [] ["r1"; "r2"] true));
    [done | by repeat constructor].
Defined.
